(** * The verifier operator of aligned_layer: task processing, signing, run loop

    A shallow embedding of [operator.go] (package [operator]): the run loop
    [Start], the batch processor [ProcessNewTaskCreatedLog], the PLONK
    verifier [verifyPlonkProof] and the signer [SignTaskResponse].

    Go values are modelled as follows.
    - [[]byte] is [list Byte.byte]; the nil slice is [[]].
    - integer tags and indices ([uint8], [uint16], [uint32], [uint64]) are [Z];
      lengths ([uint] of [len]) are [nat].
    - a pointer that may be nil is an [option]; dereferencing [None] panics.
    - a [(value, error)] pair is a sum: [inl value] when the error is nil.
    - the logger, the calls into other packages and the goroutines that are
      spawned are recorded in a [World] threaded through a state monad whose
      results are either a value or a Go panic. *)

From Stdlib Require Import ZArith String Lia Bool DecimalString DecimalZ DecimalPos.
From stdpp Require Import base option list.

Local Open Scope list_scope.

Abbreviation bytes := (list Byte.byte).
Abbreviation error := string.

(** ** Contract bindings (package [servicemanager]) and [core/types] *)

Record DAPayload := {
  Solution : Z;
  ProofAssociatedData : bytes;
  Index : Z
}.

Record ProofVerificationData := {
  ProvingSystemId : Z;
  DAPayload_of : DAPayload;
  PubInput : bytes;
  VerificationKey : bytes
}.

Record BatchProofVerificationTask := {
  ProofVerificationsData : list ProofVerificationData;
  TaskCreatedBlock : Z
}.

(** [ContractAlignedLayerServiceManagerNewTaskCreated] *)
Record NewTaskCreated := {
  TaskIndex : Z;
  BatchProofVerificationTask_of : BatchProofVerificationTask
}.

(** [AlignedLayerServiceManagerBatchProofVerificationTaskResponse]; its
    field [TaskIndex] is [RespTaskIndex] here. *)
Record TaskResponse := {
  RespTaskIndex : Z;
  ProofResults : list bool
}.

Record SignedTaskResponse := {
  TaskResponse_of : TaskResponse;
  BlsSignature : bytes;
  SignedOperatorId : bytes
}.

(** The two curve identifiers of [ecc] that the operator passes on. *)
Inductive ecc_ID := BLS12_381 | BN254.

(** ** The world: log lines, calls into collaborators, goroutines *)

Inductive Level := Info | Error.

Inductive Call :=
| CallEigenDA (data : bytes) (index : Z)
| CallCelestia (height : Z) (namespace : bytes) (commitment : bytes)
| CallProofReadFrom (curve : ecc_ID) (b : bytes)
| CallWitnessNew (curve : ecc_ID)
| CallWitnessReadFrom (curve : ecc_ID) (b : bytes)
| CallVerifyingKeyReadFrom (curve : ecc_ID) (b : bytes)
| CallPlonkVerify (curve : ecc_ID)
| CallVerifySp1Proof (proofLen elfLen : nat)
| CallAbiEncodeTaskResponse (r : TaskResponse)
| CallSignMessage (digest : bytes)
| CallSubscribe
| CallUnsubscribe
| GoSendSignedTaskResponseToAggregator (s : SignedTaskResponse).

Record World := {
  logs : list (Level * string);
  calls : list Call
}.

Definition world0 : World := {| logs := []; calls := [] |}.

(** ** The monad: state, with Go panics *)

Inductive Res (A : Type) :=
| Ok (a : A)
| Panic (msg : string).
Arguments Ok {A} a.
Arguments Panic {A} msg.

Definition M (A : Type) : Type := World -> Res A * World.

Definition ret {A} (a : A) : M A := fun w => (Ok a, w).

Definition bind {A B} (m : M A) (k : A -> M B) : M B :=
  fun w => match m w with
           | (Ok a, w') => k a w'
           | (Panic msg, w') => (Panic msg, w')
           end.

Definition panic {A} (msg : string) : M A := fun w => (Panic msg, w).

#[global] Instance M_ret : MRet M := @ret.
#[global] Instance M_bind : MBind M := fun A B k m => bind m k.

(** A line of the logger: its level and its format string; the arguments
    of the format are not kept. *)
Definition log (lvl : Level) (msg : string) : M unit :=
  fun w => (Ok tt, {| logs := logs w ++ [(lvl, msg)]; calls := calls w |}).

Definition call (c : Call) : M unit :=
  fun w => (Ok tt, {| logs := logs w; calls := calls w ++ [c] |}).

Definition value {A} (r : Res A * World) : Res A := fst r.
Definition after {A} (r : Res A * World) : World := snd r.

(** ** Go built-ins *)

Definition nil_deref : string := "invalid memory address or nil pointer dereference".

(** [make([]byte, n)] *)
Definition make_bytes (n : nat) : bytes := replicate n Byte.x00.

(** [copy(dst, src)]: the first [min (len dst) (len src)] bytes of [dst]
    are overwritten; the value is [dst] afterwards. *)
Definition copy (dst src : bytes) : bytes :=
  take (length dst) src ++ drop (length src) dst.

(** [([n]byte)(s)]: conversion of a slice to an array, which panics when
    the slice is shorter than the array. *)
Definition to_array (n : nat) (s : bytes) : M bytes :=
  if length s <? n then panic "cannot convert slice to array: length too short"
  else ret (take n s).

(** [s[:n]] on a slice whose capacity is its length. *)
Definition slice_to (n : nat) (s : bytes) : M bytes :=
  if length s <? n then panic "slice bounds out of range"
  else ret (take n s).

(** [l[i] = x] *)
Definition store {A} (l : list A) (i : nat) (x : A) : M (list A) :=
  if i <? length l then ret (<[i:=x]> l) else panic "index out of range".

(** [*p] *)
Definition deref {A} (p : option A) : M A :=
  match p with
  | Some a => ret a
  | None => panic nil_deref
  end.

(** ** Collaborators outside the file

    Constants, clients and libraries that [operator.go] uses and does not
    define. Each is a function of its arguments; the monadic wrappers below
    record the call in the world before returning its result. *)

Class Externals := {
  (** package [common]: data-availability tags and proving-system ids *)
  Calldata : Z;
  EigenDA : Z;
  Celestia : Z;
  GnarkPlonkBls12_381 : Z;
  GnarkPlonkBn254 : Z;
  SP1 : Z;
  (** package [sp1]: buffer sizes of the FFI boundary, and the verifier
      behind it on a proof and an ELF of their true lengths *)
  MaxProofSize : nat;
  MaxElfBufferSize : nat;
  sp1_verify : bytes -> bytes -> bool;
  (** the EigenDA disperser and the Celestia light node *)
  eigenda_blob : bytes -> Z -> bytes + error;
  celestia_blob : Z -> bytes -> bytes -> bytes + error;
  (** gnark: [plonk], [witness] *)
  PlonkProof : Type;
  Witness : Type;
  VerifyingKey : Type;
  proof_ReadFrom : ecc_ID -> bytes -> PlonkProof + error;
  witness_New : ecc_ID -> Witness + error;
  witness_ReadFrom : Witness -> bytes -> Witness + error;
  verifyingKey_ReadFrom : ecc_ID -> bytes -> VerifyingKey + error;
  plonk_Verify : PlonkProof -> VerifyingKey -> Witness -> option error;
  (** [utils.AbiEncodeTaskResponse], [sha3.NewLegacyKeccak256], [bls] *)
  AbiEncodeTaskResponse : TaskResponse -> bytes + error;
  Keccak256 : bytes -> bytes;
  Keccak256_length : forall b, length (Keccak256 b) = 32;
  KeyPair : Type;
  SignMessage : KeyPair -> bytes -> bytes
}.

Section Operator.

Context {ext : Externals}.

(** The fields of [Operator] that the functions below read:
    [Config.CelestiaConfig.Namespace], [Config.BlsConfig.KeyPair] and
    [OperatorId]. *)
Record Operator := {
  Namespace : bytes;
  BlsKeyPair : KeyPair;
  OperatorId : bytes
}.

Definition getProofFromEigenDA (o : Operator) (data : bytes) (index : Z)
  : M (bytes + error) :=
  call (CallEigenDA data index);;
  mret (eigenda_blob data index).

Definition getProofFromCelestia (o : Operator) (height : Z) (namespace : bytes)
    (commitment : bytes) : M (bytes + error) :=
  call (CallCelestia height namespace commitment);;
  mret (celestia_blob height namespace commitment).

(** Modelled from the spec: [sp1.VerifySp1Proof] of package [operator/sp1],
    which is not among the sources. The buffers have the fixed sizes and the
    true lengths come alongside; an input longer than its buffer is a failed
    verification, and the verifier is otherwise run on the proof and the ELF
    of the lengths given. *)
Definition VerifySp1Proof (proofBuffer : bytes) (proofLen : nat)
    (elfBuffer : bytes) (elfLen : nat) : M bool :=
  call (CallVerifySp1Proof proofLen elfLen);;
  if (MaxProofSize <? proofLen) || (MaxElfBufferSize <? elfLen) then mret false
  else mret (sp1_verify (take proofLen proofBuffer) (take elfLen elfBuffer)).

(** ** [verifyPlonkProof] *)

Definition verifyPlonkProof (o : Operator)
    (proofBytes pubInputBytes verificationKeyBytes : bytes) (curve : ecc_ID)
  : M bool :=
  call (CallProofReadFrom curve proofBytes);;
  match proof_ReadFrom curve proofBytes with
  | inr _ => log Error "Could not deserialize proof: %v";; mret false
  | inl proof =>
    call (CallWitnessNew curve);;
    match witness_New curve with
    | inr _ => log Error "Error instantiating witness: %v";; mret false
    | inl pubInput0 =>
      call (CallWitnessReadFrom curve pubInputBytes);;
      match witness_ReadFrom pubInput0 pubInputBytes with
      | inr _ => log Error "Could not read PLONK public input: %v";; mret false
      | inl pubInput =>
        call (CallVerifyingKeyReadFrom curve verificationKeyBytes);;
        match verifyingKey_ReadFrom curve verificationKeyBytes with
        | inr _ =>
          log Error "Could not read PLONK verifying key from bytes: %v";;
          mret false
        | inl verificationKey =>
          call (CallPlonkVerify curve);;
          match plonk_Verify proof verificationKey pubInput with
          | None => mret true
          | Some _ => mret false
          end
        end
      end
    end
  end.

Definition verifyPlonkProofBLS12_381 (o : Operator)
    (proofBytes pubInputBytes verificationKeyBytes : bytes) : M bool :=
  verifyPlonkProof o proofBytes pubInputBytes verificationKeyBytes BLS12_381.

Definition verifyPlonkProofBN254 (o : Operator)
    (proofBytes pubInputBytes verificationKeyBytes : bytes) : M bool :=
  verifyPlonkProof o proofBytes pubInputBytes verificationKeyBytes BN254.

(** ** [ProcessNewTaskCreatedLog] *)

(** The first [switch] of the loop body, on [DAPayload.Solution]. [None] is
    the [return nil] of a failed fetch; without a matching case [proof]
    keeps its zero value, the nil slice. *)
Definition resolveProof (o : Operator) (verificationData : ProofVerificationData)
  : M (option bytes) :=
  let payload := DAPayload_of verificationData in
  if (Solution payload =? Calldata)%Z then
    mret (Some (ProofAssociatedData payload))
  else if (Solution payload =? EigenDA)%Z then
    r ← getProofFromEigenDA o (ProofAssociatedData payload) (Index payload);
    match r with
    | inl proof => mret (Some proof)
    | inr _ => log Error "Could not get proof from EigenDA: %v";; mret None
    end
  else if (Solution payload =? Celestia)%Z then
    r ← getProofFromCelestia o (Index payload) (Namespace o)
          (ProofAssociatedData payload);
    match r with
    | inl proof => mret (Some proof)
    | inr _ => log Error "Could not get proof from Celestia: %v";; mret None
    end
  else mret (Some []).

(** The second [switch], on [ProvingSystemId]. [None] is the [return nil]
    of the [default] case. *)
Definition verifyProof (o : Operator) (verificationData : ProofVerificationData)
    (proof : bytes) : M (option bool) :=
  let proofLen := length proof in
  let pubInput := PubInput verificationData in
  let provingSystemId := ProvingSystemId verificationData in
  if (provingSystemId =? GnarkPlonkBls12_381)%Z then
    let verificationKey := VerificationKey verificationData in
    verificationResult ← verifyPlonkProofBLS12_381 o proof pubInput verificationKey;
    log Info "PLONK BLS12_381 proof verification result: %t";;
    mret (Some verificationResult)
  else if (provingSystemId =? GnarkPlonkBn254)%Z then
    let verificationKey := VerificationKey verificationData in
    verificationResult ← verifyPlonkProofBN254 o proof pubInput verificationKey;
    log Info "PLONK BN254 proof verification result: %t";;
    mret (Some verificationResult)
  else if (provingSystemId =? SP1)%Z then
    let proofBytes := copy (make_bytes MaxProofSize) proof in
    let elf := PubInput verificationData in
    let elfBytes := copy (make_bytes MaxElfBufferSize) elf in
    let elfLen := length elf in
    proofArray ← to_array MaxProofSize proofBytes;
    elfArray ← to_array MaxElfBufferSize elfBytes;
    verificationResult ← VerifySp1Proof proofArray proofLen elfArray elfLen;
    log Info "SP1 proof verification result: %t";;
    mret (Some verificationResult)
  else
    log Error "Unrecognized proving system ID";;
    mret None.

(** One iteration of the loop, up to the store into
    [proofVerificationResults]. *)
Definition processProof (o : Operator) (verificationData : ProofVerificationData)
  : M (option bool) :=
  p ← resolveProof o verificationData;
  match p with
  | None => mret None
  | Some proof => verifyProof o verificationData proof
  end.

(** The [for i, verificationData := range task.ProofVerificationsData] loop
    from index [i] on, over the proofs that remain. *)
Fixpoint verifyLoop (o : Operator) (i : nat) (rest : list ProofVerificationData)
    (proofVerificationResults : list bool) : M (option (list bool)) :=
  match rest with
  | [] => mret (Some proofVerificationResults)
  | verificationData :: rest' =>
    v ← processProof o verificationData;
    match v with
    | None => mret None
    | Some verificationResult =>
      results' ← store proofVerificationResults i verificationResult;
      verifyLoop o (S i) rest' results'
    end
  end.

Definition ProcessNewTaskCreatedLog (o : Operator) (newTaskCreatedLog : NewTaskCreated)
  : M (option TaskResponse) :=
  let task := BatchProofVerificationTask_of newTaskCreatedLog in
  let numProofs := length (ProofVerificationsData task) in
  log Info "Received new task with proof to verify";;
  let proofVerificationResults := replicate numProofs false in
  r ← verifyLoop o 0 (ProofVerificationsData task) proofVerificationResults;
  match r with
  | None => mret None
  | Some results =>
    mret (Some {| RespTaskIndex := TaskIndex newTaskCreatedLog;
                  ProofResults := results |})
  end.

(** ** [SignTaskResponse] *)

Definition SignTaskResponse (o : Operator) (taskResponse : option TaskResponse)
  : M (bytes + error) :=
  r ← deref taskResponse;
  call (CallAbiEncodeTaskResponse r);;
  match AbiEncodeTaskResponse r with
  | inr err => mret (inr err)
  | inl encodedResponseBytes =>
    sum ← slice_to 32 (Keccak256 encodedResponseBytes);
    let taskResponseDigest := copy (make_bytes 32) sum in
    call (CallSignMessage taskResponseDigest);;
    mret (inl (SignMessage (BlsKeyPair o) taskResponseDigest))
  end.

(** ** [Start] *)

(** A [context.Context], as far as the loop can see it: whether its [Done]
    channel is closed. [context.Background()] is never cancelled. *)
Record Context := { done : bool }.

Definition context_Background : Context := {| done := false |}.

(** What the environment does while the loop runs, in the order the
    [select] gets to see it: the caller cancels the context given to
    [Start], the subscription reports an error, a task arrives on
    [NewTaskCreatedChan]. *)
Inductive Signal :=
| SigCancel
| SigSubErr (err : error)
| SigTask (newTaskCreatedLog : NewTaskCreated).

(** How a run ends: [return nil], or blocked in the [select] with nothing
    left to receive. *)
Inductive Exit := Returned | Blocked.

Definition SubscribeToNewTasks (o : Operator) : M unit := call CallSubscribe.

(** The body of [case newTaskCreatedLog := <-o.NewTaskCreatedChan]. *)
Definition handleNewTask (o : Operator) (newTaskCreatedLog : NewTaskCreated)
  : M unit :=
  log Info "Received task with index: %d\n";;
  taskResponse ← ProcessNewTaskCreatedLog o newTaskCreatedLog;
  r ← SignTaskResponse o taskResponse;
  let responseSignature := match r with inl s => Some s | inr _ => None end in
  match r with
  | inr _ => log Error "Could not sign task response"
  | inl _ => mret tt
  end;;
  taskResponse' ← deref taskResponse;
  responseSignature' ← deref responseSignature;
  let signedTaskResponse :=
    {| TaskResponse_of := taskResponse';
       BlsSignature := responseSignature';
       SignedOperatorId := OperatorId o |} in
  log Info "Signed hash: %+v";;
  call (GoSendSignedTaskResponseToAggregator signedTaskResponse).

(** The [for { select { ... } }] of [Start]: [ctx] is the context passed to
    [Start], in its current state. *)
Fixpoint StartLoop (o : Operator) (ctx : Context) (signals : list Signal)
  : M Exit :=
  if done context_Background then
    log Info "Operator shutting down...";;
    mret Returned
  else
    match signals with
    | [] => mret Blocked
    | SigCancel :: signals' =>
      StartLoop o {| done := true |} signals'
    | SigSubErr err :: signals' =>
      log Info "Error in websocket subscription";;
      call CallUnsubscribe;;
      SubscribeToNewTasks o;;
      StartLoop o ctx signals'
    | SigTask newTaskCreatedLog :: signals' =>
      handleNewTask o newTaskCreatedLog;;
      StartLoop o ctx signals'
    end.

Definition Start (o : Operator) (ctx : Context) (signals : list Signal) : M Exit :=
  SubscribeToNewTasks o;;
  StartLoop o ctx signals.

End Operator.

(** ** Vocabulary of the statements *)

Section Vocabulary.

Context {ext : Externals}.

(** The cases of each [switch] are distinct constants. *)
Definition da_tags_distinct : Prop :=
  Calldata <> EigenDA /\ Calldata <> Celestia /\ EigenDA <> Celestia.

Definition proving_systems_distinct : Prop :=
  GnarkPlonkBls12_381 <> GnarkPlonkBn254 /\ GnarkPlonkBls12_381 <> SP1 /\
  GnarkPlonkBn254 <> SP1.

(** The payload names a backend that has to be queried, and the query fails. *)
Definition fetch_fails (o : Operator) (pv : ProofVerificationData) : Prop :=
  let payload := DAPayload_of pv in
  (Solution payload = EigenDA /\
   exists e, eigenda_blob (ProofAssociatedData payload) (Index payload) = inr e) \/
  (Solution payload = Celestia /\
   exists e, celestia_blob (Index payload) (Namespace o)
               (ProofAssociatedData payload) = inr e).

Definition known_system (pv : ProofVerificationData) : Prop :=
  ProvingSystemId pv = GnarkPlonkBls12_381 \/
  ProvingSystemId pv = GnarkPlonkBn254 \/
  ProvingSystemId pv = SP1.

Definition unknown_system (pv : ProofVerificationData) : Prop :=
  ProvingSystemId pv <> GnarkPlonkBls12_381 /\
  ProvingSystemId pv <> GnarkPlonkBn254 /\
  ProvingSystemId pv <> SP1.

Definition unknown_solution (pv : ProofVerificationData) : Prop :=
  let payload := DAPayload_of pv in
  Solution payload <> Calldata /\ Solution payload <> EigenDA /\
  Solution payload <> Celestia.

(** A computation whose result does not depend on the world it starts in. *)
Definition constant {A} (m : M A) (r : Res A) : Prop :=
  forall w, value (m w) = r.

(** The submissions handed to a goroutine so far. *)
Definition sends (w : World) : list SignedTaskResponse :=
  omap (fun c => match c with
                 | GoSendSignedTaskResponseToAggregator s => Some s
                 | _ => None
                 end) (calls w).

(** The world once [ProcessNewTaskCreatedLog] has logged its first line. *)
Definition received_task (w : World) : World :=
  after (log Info "Received new task with proof to verify" w).

(** The world once the loop of [Start] has logged the arrival of a task. *)
Definition received_index (w : World) : World :=
  after (log Info "Received task with index: %d\n" w).

Definition is_send (c : Call) : bool :=
  match c with
  | GoSendSignedTaskResponseToAggregator _ => true
  | _ => false
  end.

(** A computation that hands nothing to the aggregator. *)
Definition quiet {A} (m : M A) : Prop :=
  forall w, sends (after (m w)) = sends w.

(** The calls of a full run of [verifyPlonkProof], in the order made. *)
Definition plonk_calls (curve : ecc_ID) (proofBytes pubInputBytes vkBytes : bytes)
  : list Call :=
  [ CallProofReadFrom curve proofBytes;
    CallWitnessNew curve;
    CallWitnessReadFrom curve pubInputBytes;
    CallVerifyingKeyReadFrom curve vkBytes;
    CallPlonkVerify curve ].

End Vocabulary.

(** ** Fixtures: a small world of collaborators, and tasks in it *)

Module Fixtures.

Definition nonempty (b : bytes) : bytes + error :=
  match b with
  | [] => inr "unexpected EOF"%string
  | _ => inl b
  end.

Definition toy_keccak (b : bytes) : bytes := take 32 (b ++ replicate 32 Byte.x00).

Definition toy_abi (r : TaskResponse) : bytes :=
  map (fun v : bool => if v then Byte.x01 else Byte.x00) (ProofResults r).

(** Tags in the order of their declaration; buffers of four and two bytes;
    a PLONK proof verifies when it is as long as its key, an SP1 proof when
    it is as long as its ELF; the backends fail at index and height 0. *)
Definition toy_with (abi : TaskResponse -> bytes + error) : Externals.
Proof.
  refine {|
    Calldata := 0; EigenDA := 1; Celestia := 2;
    GnarkPlonkBls12_381 := 0; GnarkPlonkBn254 := 1; SP1 := 2;
    MaxProofSize := 4; MaxElfBufferSize := 2;
    sp1_verify := fun p e => length p =? length e;
    eigenda_blob := fun d i => if (i =? 0)%Z then inr "blob not found"%string else inl d;
    celestia_blob := fun h ns c => if (h =? 0)%Z then inr "blob not found"%string else inl c;
    PlonkProof := bytes; Witness := bytes; VerifyingKey := bytes;
    proof_ReadFrom := fun _ b => nonempty b;
    witness_New := fun _ => inl [];
    witness_ReadFrom := fun _ b => nonempty b;
    verifyingKey_ReadFrom := fun _ b => nonempty b;
    plonk_Verify := fun p vk _ =>
      if length p =? length vk then None else Some "invalid proof"%string;
    AbiEncodeTaskResponse := abi;
    Keccak256 := toy_keccak;
    KeyPair := bytes;
    SignMessage := fun k d => k ++ d
  |}.
  intros b. unfold toy_keccak.
  rewrite length_take, length_app, length_replicate. lia.
Defined.

Definition toy : Externals := toy_with (fun r => inl (toy_abi r)).

(** The same world with an ABI encoder that reports an error. *)
Definition toy_abi_fails : Externals :=
  toy_with (fun _ => inr "abi: cannot pack"%string).

Definition op (ext : Externals) (k : @KeyPair ext) : @Operator ext :=
  {| Namespace := [Byte.x0a]; BlsKeyPair := k; OperatorId := [Byte.x07] |}.

Definition toy_op : @Operator toy := op toy [Byte.x2a].
Definition toy_op_abi_fails : @Operator toy_abi_fails := op toy_abi_fails [Byte.x2a].

Definition calldata (b : bytes) : DAPayload :=
  {| Solution := 0; ProofAssociatedData := b; Index := 0 |}.

(** A BN254 proof that verifies, and one that does not. *)
Definition pv_valid : ProofVerificationData :=
  {| ProvingSystemId := 1; DAPayload_of := calldata [Byte.x01];
     PubInput := [Byte.x02]; VerificationKey := [Byte.x03] |}.

Definition pv_invalid : ProofVerificationData :=
  {| ProvingSystemId := 1; DAPayload_of := calldata [Byte.x01; Byte.x01];
     PubInput := [Byte.x02]; VerificationKey := [Byte.x03] |}.

(** [provingSystemId = 0xFFFF] *)
Definition pv_unknown_system : ProofVerificationData :=
  {| ProvingSystemId := 65535; DAPayload_of := calldata [Byte.x01];
     PubInput := [Byte.x02]; VerificationKey := [Byte.x03] |}.

(** An EigenDA payload whose fetch fails. *)
Definition pv_fetch_fails : ProofVerificationData :=
  {| ProvingSystemId := 1;
     DAPayload_of := {| Solution := 1; ProofAssociatedData := [Byte.x01]; Index := 0 |};
     PubInput := [Byte.x02]; VerificationKey := [Byte.x03] |}.

Definition five_bytes : bytes :=
  [Byte.x01; Byte.x02; Byte.x03; Byte.x04; Byte.x05].

(** An SP1 proof of five bytes, one more than the buffer holds. *)
Definition pv_sp1_oversized : ProofVerificationData :=
  {| ProvingSystemId := 2;
     DAPayload_of := calldata five_bytes;
     PubInput := [Byte.x02]; VerificationKey := [] |}.

(** A payload whose solution tag is none of the three. *)
Definition pv_unknown_solution : ProofVerificationData :=
  {| ProvingSystemId := 1;
     DAPayload_of := {| Solution := 7; ProofAssociatedData := [Byte.x01]; Index := 3 |};
     PubInput := [Byte.x02]; VerificationKey := [Byte.x03] |}.

Definition task (index : Z) (pvs : list ProofVerificationData) : NewTaskCreated :=
  {| TaskIndex := index;
     BatchProofVerificationTask_of :=
       {| ProofVerificationsData := pvs; TaskCreatedBlock := 100 |} |}.

(** Scenarios: mixed verdicts, an unknown proving system, a failed fetch. *)
Definition task_mixed : NewTaskCreated := task 5 [pv_valid; pv_invalid; pv_valid].
Definition task_unknown_system : NewTaskCreated := task 6 [pv_valid; pv_unknown_system].
Definition task_fetch_fails : NewTaskCreated := task 7 [pv_fetch_fails].
Definition task_valid : NewTaskCreated := task 8 [pv_valid].

Definition response_mixed : TaskResponse :=
  {| RespTaskIndex := 5; ProofResults := [true; false; true] |}.
Definition response_valid : TaskResponse :=
  {| RespTaskIndex := 8; ProofResults := [true] |}.

End Fixtures.

(** ** Vocabulary of the further statements *)

Section FurtherVocabulary.

Context {ext : Externals}.

(** The world with log lines and calls appended. *)
Definition extend (w : World) (dl : list (Level * string)) (dc : list Call) : World :=
  {| logs := logs w ++ dl; calls := calls w ++ dc |}.

(** A computation that, from any world, gives [r] and appends [dl] and [dc]. *)
Definition writes {A} (m : M A) (r : Res A) (dl : list (Level * string))
    (dc : list Call) : Prop :=
  forall w, m w = (r, extend w dl dc).

(** A computation that only appends to the world, calls satisfying [P]. *)
Definition effect {A} (P : Call -> Prop) (m : M A) : Prop :=
  exists r dl dc, Forall P dc /\ writes m r dl dc.

Definition is_subscription (c : Call) : bool :=
  match c with
  | CallSubscribe | CallUnsubscribe => true
  | _ => false
  end.

(** Neither a submission nor a call on the subscription. *)
Definition internal (c : Call) : Prop :=
  is_send c = false /\ is_subscription c = false.

(** A query to a data-availability backend. *)
Definition is_fetch (c : Call) : bool :=
  match c with
  | CallEigenDA _ _ | CallCelestia _ _ _ => true
  | _ => false
  end.

Definition is_task (s : Signal) : bool :=
  match s with
  | SigTask _ => true
  | _ => false
  end.

Definition tasks_in (signals : list Signal) : nat :=
  length (filter (fun s => is_task s = true) signals).

(** The subscription protocol read off a trace of calls: whether a
    subscription is live after the calls, or [None] when a subscription is
    opened while one is live or released while none is. *)
Fixpoint subscription_after (live : bool) (cs : list Call) : option bool :=
  match cs with
  | [] => Some live
  | CallSubscribe :: cs' =>
      if live then None else subscription_after true cs'
  | CallUnsubscribe :: cs' =>
      if live then subscription_after false cs' else None
  | _ :: cs' => subscription_after live cs'
  end.

(** The submission for a response whose encoding is [encoded]. *)
Definition signed_response (o : Operator) (R : TaskResponse) (encoded : bytes)
  : SignedTaskResponse :=
  {| TaskResponse_of := R;
     BlsSignature := SignMessage (BlsKeyPair o) (Keccak256 encoded);
     SignedOperatorId := OperatorId o |}.

(** All three encodings read on the curve, and [plonk.Verify] has no error. *)
Definition plonk_accepts (curve : ecc_ID) (proofBytes pubInputBytes vkBytes : bytes)
  : Prop :=
  exists proof pubInput0 pubInput verificationKey,
    proof_ReadFrom curve proofBytes = inl proof /\
    witness_New curve = inl pubInput0 /\
    witness_ReadFrom pubInput0 pubInputBytes = inl pubInput /\
    verifyingKey_ReadFrom curve vkBytes = inl verificationKey /\
    plonk_Verify proof verificationKey pubInput = None.

(** The first [n] bytes of [src], padded with zeros to [n] bytes. *)
Definition padded (n : nat) (src : bytes) : bytes :=
  take n src ++ replicate (n - length src) Byte.x00.

End FurtherVocabulary.

(** ** [NewOperatorFromConfig] *)

Section Startup.

Context {ext : Externals}.

(** The fields of [config.OperatorConfig] that are read directly:
    [Operator.Address], [Operator.AggregatorServerIpPortAddress],
    [BlsConfig.KeyPair] and [CelestiaConfig.Namespace]. The base and ECDSA
    configurations go to the constructors below as part of the whole. *)
Record OperatorConfig := {
  cfg_Address : bytes;
  cfg_AggregatorServerIpPortAddress : string;
  cfg_KeyPair : KeyPair;
  cfg_Namespace : bytes
}.

(** Packages [chainio] and [eigentypes], and the RPC client of the
    aggregator, which [operator.go] uses and does not define. *)
Class Chain := {
  AvsReader : Type;
  AvsSubscriber : Type;
  AggregatorRpcClient : Type;
  NewAvsReaderFromConfig : OperatorConfig -> AvsReader + error;
  IsOperatorRegistered : AvsReader -> bytes -> bool + error;
  NewAvsSubscriberFromConfig : OperatorConfig -> AvsSubscriber + error;
  NewAggregatorRpcClient : string -> AggregatorRpcClient + error;
  OperatorIdFromKeyPair : KeyPair -> bytes
}.

Context {chain : Chain}.

(** How [NewOperatorFromConfig] ends: [log.Fatalf], which exits the
    process; [return nil, err]; or [return operator, nil], with the fields
    of the operator that [Operator] above leaves out. *)
Inductive Startup :=
| Fatal (msg : string)
| StartupError (err : error)
| Created (o : Operator) (address : bytes) (avsSubscriber : AvsSubscriber)
    (aggRpcClient : AggregatorRpcClient).

Definition NewOperatorFromConfig (configuration : OperatorConfig) : Startup :=
  match NewAvsReaderFromConfig configuration with
  | inr _ => Fatal "Could not create AVS reader"
  | inl avsReader =>
    match IsOperatorRegistered avsReader (cfg_Address configuration) with
    | inr _ => Fatal "Could not check if operator is registered"
    | inl registered =>
      if negb registered then
        Fatal "Operator is not registered with AlignedLayer AVS"
      else
        match NewAvsSubscriberFromConfig configuration with
        | inr _ => Fatal "Could not create AVS subscriber"
        | inl avsSubscriber =>
          match NewAggregatorRpcClient
                  (cfg_AggregatorServerIpPortAddress configuration) with
          | inr err =>
            StartupError (String.append "Could not create RPC client: "
                            (String.append err ". Is aggregator running?"))
          | inl rpcClient =>
            let operatorId := OperatorIdFromKeyPair (cfg_KeyPair configuration) in
            let address := cfg_Address configuration in
            Created {| Namespace := cfg_Namespace configuration;
                       BlsKeyPair := cfg_KeyPair configuration;
                       OperatorId := operatorId |}
                    address avsSubscriber rpcClient
          end
        end
    end
  end.

(** A submission signed with the key pair [k] and carrying the operator
    id derived from [k]. *)
Definition signed_by (k : KeyPair) (s : SignedTaskResponse) : Prop :=
  SignedOperatorId s = OperatorIdFromKeyPair k /\
  exists encoded, AbiEncodeTaskResponse (TaskResponse_of s) = inl encoded /\
                  BlsSignature s = SignMessage k (Keccak256 encoded).

End Startup.

(** * The proof generator of the task sender: [generate_proof.go] *)

Module GenerateProof.

(** [strconv.Itoa]: the decimal digits, after a minus sign when negative. *)
Definition Itoa (x : Z) : string :=
  DecimalString.NilZero.string_of_int (Z.to_int x).

Definition outputDir : string :=
  "task_sender/test_examples/gnark_plonk_bn254_infinite_script/infinite_proofs/".

(** The three files of a proof for [x]. *)
Definition proofName (x : Z) : string :=
  String.append outputDir (String.append "ineq_" (String.append (Itoa x) "_plonk.proof")).
Definition vkName (x : Z) : string :=
  String.append outputDir (String.append "ineq_" (String.append (Itoa x) "_plonk.vk")).
Definition witnessName (x : Z) : string :=
  String.append outputDir (String.append "ineq_" (String.append (Itoa x) "_plonk.pub")).

(** What is asked of the file system; a file handle is the name it was
    created under. *)
Inductive FsOp :=
| FsCreate (name : string)
| FsWrite (name : string) (content : bytes)
| FsClose (name : string).

Record Env := {
  stdout : list string;
  fs : list FsOp
}.

Definition env0 : Env := {| stdout := []; fs := [] |}.

(** A run ends by returning, by a panic, or by [log.Fatal], which exits
    the process without running the deferred calls. *)
Inductive Out (A : Type) :=
| Done (a : A)
| Panicked (msg : string)
| Exited (msg : string).
Arguments Done {A} a.
Arguments Panicked {A} msg.
Arguments Exited {A} msg.

Definition G (A : Type) : Type := Env -> Out A * Env.

Definition gret {A} (a : A) : G A := fun e => (Done a, e).

Definition gbind {A B} (m : G A) (k : A -> G B) : G B :=
  fun e => match m e with
           | (Done a, e') => k a e'
           | (Panicked msg, e') => (Panicked msg, e')
           | (Exited msg, e') => (Exited msg, e')
           end.

#[global] Instance G_ret : MRet G := @gret.
#[global] Instance G_bind : MBind G := fun A B k m => gbind m k.

Definition gpanic {A} (msg : string) : G A := fun e => (Panicked msg, e).

(** [log.Fatal] *)
Definition fatal {A} (msg : string) : G A := fun e => (Exited msg, e).

(** [fmt.Println], [fmt.Printf]: a line on the standard output. *)
Definition Println (line : string) : G unit :=
  fun e => (Done tt, {| stdout := stdout e ++ [line]; fs := fs e |}).

Definition fsop (op : FsOp) : G unit :=
  fun e => (Done tt, {| stdout := stdout e; fs := fs e ++ [op] |}).

(** [defer]: the deferred call runs when the rest of the function returns
    and when it panics, not when the process exits. *)
Definition defer {A} (deferred : G unit) (rest : G A) : G A :=
  fun e => match rest e with
           | (Done a, e') => (Done a, snd (deferred e'))
           | (Panicked msg, e') => (Panicked msg, snd (deferred e'))
           | (Exited msg, e') => (Exited msg, e')
           end.

(** gnark ([frontend], [plonk], [unsafekzg]) and [os], which the file uses
    and does not define. The circuit compiled is [InequalityCircuit]; a
    witness is made from the assignment [X: x], in full or public only. *)
Class Gnark := {
  CCS : Type;
  SparseR1CS : Type;
  SRS : Type;
  ProvingKey : Type;
  VerifyingKey : Type;
  Witness : Type;
  Proof : Type;
  Compile : CCS + error;
  as_SparseR1CS : CCS -> option SparseR1CS;
  GetNbConstraints : SparseR1CS -> Z;
  NewSRS : SparseR1CS -> (SRS * SRS) + error;
  Setup : CCS -> SRS -> SRS -> (ProvingKey * VerifyingKey) + error;
  NewWitness : Z -> bool -> Witness + error;
  Prove : CCS -> ProvingKey -> Witness -> Proof + error;
  Verify : Proof -> VerifyingKey -> Witness -> option error;
  proof_WriteTo : Proof -> bytes;
  vk_WriteTo : VerifyingKey -> bytes;
  witness_WriteTo : Witness -> bytes;
  os_Create : string -> option error;
  file_Write : string -> bytes -> option error
}.

Section Generate.

Context {gnark : Gnark}.

(** [os.Create(name)], with the panic of the caller on an error. *)
Definition Create (name : string) (onError : string) : G string :=
  fsop (FsCreate name);;
  match os_Create name with
  | Some err => gpanic (String.append onError err)
  | None => mret name
  end.

(** [v.WriteTo(file)], with the panic of the caller on an error. *)
Definition WriteTo (content : bytes) (file : string) (onError : string) : G unit :=
  fsop (FsWrite file content);;
  match file_Write file content with
  | Some err => gpanic (String.append onError err)
  | None => mret tt
  end.

(** The second part of [GenerateIneqProof], from the first [os.Create]
    on: the three files are created, their closing is deferred, and the
    proof, the verification key and the public witness are written. *)
Definition writeFiles (x : Z) (proof : Proof) (vk : VerifyingKey)
    (publicWitness : Witness) : G unit :=
  proofFile ← Create (proofName x) "Error creating proof file: ";
  vkFile ← Create (vkName x) "Error creating verification key file: ";
  witnessFile ← Create (witnessName x) "Error creating public witness file: ";
  defer (fsop (FsClose proofFile)) (
  defer (fsop (FsClose vkFile)) (
  defer (fsop (FsClose witnessFile)) (
    WriteTo (proof_WriteTo proof) proofFile "Could not serialize proof into file: ";;
    WriteTo (vk_WriteTo vk) vkFile
      "Could not serialize verification key into file: ";;
    WriteTo (witness_WriteTo publicWitness) witnessFile
      "Could not serialize public witness into file: ";;
    Println (String.append "Proof written into ineq_"
               (String.append (Itoa x) "_plonk.proof"));;
    Println (String.append "Verification key written into ineq_"
               (String.append (Itoa x) "_plonk.vk"));;
    Println (String.append "Public witness written into ineq_"
               (String.append (Itoa x) "_plonk.pub"));;
    Println (String.append "GenerateIneqProof completed successfully for x = "
               (Itoa x))))).

Definition GenerateIneqProof (x : Z) : G unit :=
  Println (String.append "Starting GenerateIneqProof for x = " (Itoa x));;
  Println "Compiling circuit...";;
  match Compile with
  | inr err => gpanic (String.append "circuit compilation error: " err)
  | inl ccs =>
  Println "Circuit compiled successfully.";;
  match as_SparseR1CS ccs with
  | None => gpanic "interface conversion: not *cs.SparseR1CS"
  | Some r1cs =>
  Println (String.append "Number of constraints: " (Itoa (GetNbConstraints r1cs)));;
  Println "Generating SRS...";;
  match NewSRS r1cs with
  | inr err => gpanic (String.append "KZG setup error: " err)
  | inl (srs, srsLagrangeInterpolation) =>
  Println "SRS generated successfully.";;
  Println "Setting up PLONK...";;
  match Setup ccs srs srsLagrangeInterpolation with
  | inr err => gpanic (String.append "PLONK setup error: " err)
  | inl (pk, vk) =>
  Println "PLONK setup completed.";;
  Println "Creating full witness...";;
  match NewWitness x false with
  | inr err => fatal (String.append "Error creating full witness: " err)
  | inl fullWitness =>
  Println "Full witness created successfully.";;
  Println "Creating public witness...";;
  match NewWitness x true with
  | inr err => fatal (String.append "Error creating public witness: " err)
  | inl publicWitness =>
  Println "Public witness created successfully.";;
  Println "Generating proof...";;
  match Prove ccs pk fullWitness with
  | inr err => gpanic (String.append "PLONK proof generation error: " err)
  | inl proof =>
  Println "Proof generated successfully.";;
  Println "Verifying proof...";;
  match Verify proof vk publicWitness with
  | Some err => gpanic (String.append "PLONK proof not verified: " err)
  | None =>
  Println "Proof verified successfully.";;
  Println "Writing proof to file...";;
  writeFiles x proof vk publicWitness
  end end end end end end end end.

(** Every step before the files succeeds for [x], and the proof made is
    accepted by [plonk.Verify] for the key and the public witness. *)
Definition verified (x : Z) (proof : Proof) (vk : VerifyingKey)
    (publicWitness : Witness) : Prop :=
  exists ccs r1cs srs srsLagrangeInterpolation pk fullWitness,
    Compile = inl ccs /\
    as_SparseR1CS ccs = Some r1cs /\
    NewSRS r1cs = inl (srs, srsLagrangeInterpolation) /\
    Setup ccs srs srsLagrangeInterpolation = inl (pk, vk) /\
    NewWitness x false = inl fullWitness /\
    NewWitness x true = inl publicWitness /\
    Prove ccs pk fullWitness = inl proof /\
    Verify proof vk publicWitness = None.

(** What a run for [x] asks of the file system, and how it ends. *)
Definition fs_ops (x : Z) : list FsOp := fs (snd (GenerateIneqProof x env0)).

Definition outcome (x : Z) : Out unit := fst (GenerateIneqProof x env0).

(** The environment with lines printed and file operations appended. *)
Definition gextend (e : Env) (lines : list string) (ops : list FsOp) : Env :=
  {| stdout := stdout e ++ lines; fs := fs e ++ ops |}.

(** A computation that, from any environment, ends the same way and
    appends the same lines and file operations. *)
Definition framed {A} (m : G A) : Prop :=
  exists r lines ops, forall e, m e = (r, gextend e lines ops).

(** The three files are created without an error, and written without. *)
Definition creates_succeed (x : Z) : Prop :=
  os_Create (proofName x) = None /\ os_Create (vkName x) = None /\
  os_Create (witnessName x) = None.

Definition writes_succeed (x : Z) (proof : Proof) (vk : VerifyingKey)
    (publicWitness : Witness) : Prop :=
  file_Write (proofName x) (proof_WriteTo proof) = None /\
  file_Write (vkName x) (vk_WriteTo vk) = None /\
  file_Write (witnessName x) (witness_WriteTo publicWitness) = None.

Definition is_write (op : FsOp) : bool :=
  match op with
  | FsWrite _ _ => true
  | _ => false
  end.

Definition is_create (op : FsOp) : bool :=
  match op with
  | FsCreate _ => true
  | _ => false
  end.

Definition is_close (op : FsOp) : bool :=
  match op with
  | FsClose _ => true
  | _ => false
  end.

End Generate.

End GenerateProof.

(** ** Fixtures for the further statements *)

Module MoreFixtures.

Import Fixtures.

(** A chain on which every constructor succeeds, an operator is
    registered when its address is not empty, and the aggregator is
    reached at any address but the empty one. *)
Definition toy_chain : @Chain toy :=
  {| AvsReader := unit;
     AvsSubscriber := unit;
     AggregatorRpcClient := unit;
     NewAvsReaderFromConfig := fun _ => inl tt;
     IsOperatorRegistered := fun _ address =>
       inl (match address with [] => false | _ => true end);
     NewAvsSubscriberFromConfig := fun _ => inl tt;
     NewAggregatorRpcClient := fun address =>
       match address with
       | EmptyString => inr "connection refused"%string
       | _ => inl tt
       end;
     OperatorIdFromKeyPair := fun k : @KeyPair toy => Byte.x1d :: k |}.

Definition toy_config : @OperatorConfig toy :=
  {| cfg_Address := [Byte.xaa];
     cfg_AggregatorServerIpPortAddress := "localhost:8090";
     cfg_KeyPair := [Byte.x2a] : @KeyPair toy;
     cfg_Namespace := [Byte.x0a] |}.

Definition toy_config_no_aggregator : @OperatorConfig toy :=
  {| cfg_Address := [Byte.xaa];
     cfg_AggregatorServerIpPortAddress := "";
     cfg_KeyPair := [Byte.x2a] : @KeyPair toy;
     cfg_Namespace := [Byte.x0a] |}.

Definition created_op : @Operator toy :=
  {| Namespace := [Byte.x0a]; BlsKeyPair := [Byte.x2a] : @KeyPair toy;
     OperatorId := [Byte.x1d; Byte.x2a] |}.

Definition task_empty : NewTaskCreated := task 9 [].

Definition response_empty : TaskResponse :=
  {| RespTaskIndex := 9; ProofResults := [] |}.

Definition task_fetch_fails_first : NewTaskCreated :=
  task 10 [pv_valid; pv_fetch_fails; pv_valid; pv_invalid].

Definition task_fetch_fails_last : NewTaskCreated :=
  task 10 [pv_valid; pv_fetch_fails].


(** A generator on which every step succeeds but [plonk.Prove] for
    [x = 0], and whose file system reports the errors given. *)
Definition toy_gnark_with (create : string -> option error)
    (write : string -> bytes -> option error) : GenerateProof.Gnark :=
  {| GenerateProof.CCS := unit;
     GenerateProof.SparseR1CS := unit;
     GenerateProof.SRS := unit;
     GenerateProof.ProvingKey := unit;
     GenerateProof.VerifyingKey := bytes;
     GenerateProof.Witness := Z;
     GenerateProof.Proof := Z;
     GenerateProof.Compile := inl tt;
     GenerateProof.as_SparseR1CS := Some;
     GenerateProof.GetNbConstraints := fun _ => 1%Z;
     GenerateProof.NewSRS := fun _ => inl (tt, tt);
     GenerateProof.Setup := fun _ _ _ => inl (tt, [Byte.x07]);
     GenerateProof.NewWitness := fun x _ => inl x;
     GenerateProof.Prove := fun _ _ w =>
       if (w =? 0)%Z then inr "constraint is not satisfied"%string else inl w;
     GenerateProof.Verify := fun p _ w =>
       if (p =? w)%Z then None else Some "invalid proof"%string;
     GenerateProof.proof_WriteTo := fun _ => [Byte.x01];
     GenerateProof.vk_WriteTo := fun vk => vk;
     GenerateProof.witness_WriteTo := fun _ => [Byte.x03];
     GenerateProof.os_Create := create;
     GenerateProof.file_Write := write |}.

Definition toy_gnark : GenerateProof.Gnark :=
  toy_gnark_with (fun _ => None) (fun _ _ => None).

(** The same, on a file system that creates the proof file only. *)
Definition toy_gnark_no_space : GenerateProof.Gnark :=
  toy_gnark_with
    (fun name => if String.eqb name (GenerateProof.proofName 3) then None
                 else Some "no space left on device"%string)
    (fun _ _ => None).

(** The world in which the response of [task_valid] is signed. *)
Definition world_valid : World :=
  after (ProcessNewTaskCreatedLog toy_op task_valid (received_index world0)).

Definition signals_two_tasks : list Signal :=
  [SigTask task_valid; SigSubErr "connection reset"; SigTask task_mixed].

End MoreFixtures.

(** * Properties *)

(** ** Running the monad *)

Lemma run_bind {A B} (m : M A) (k : A -> M B) (w : World) :
  (m ≫= k) w =
  match m w with
  | (Ok a, w') => k a w'
  | (Panic msg, w') => (Panic msg, w')
  end.
Proof. reflexivity. Qed.

Lemma run_bind_ok {A B} (m : M A) (k : A -> M B) w a w' :
  m w = (Ok a, w') -> (m ≫= k) w = k a w'.
Proof. intros H. rewrite run_bind, H. reflexivity. Qed.

Ltac mcbv :=
  cbv [mbind M_bind bind mret M_ret ret call log panic fst snd calls logs
       value after].

Lemma constant_mret {A} (a : A) : constant (mret a) (Ok a).
Proof. intros w. reflexivity. Qed.

Lemma constant_bind {A B} (m : M A) (k : A -> M B) a r :
  constant m (Ok a) -> constant (k a) r -> constant (m ≫= k) r.
Proof.
  intros Hm Hk w. specialize (Hm w). unfold value in *.
  rewrite run_bind. destruct (m w) as [[a'|msg] w']; simpl in Hm; simplify_eq.
  apply Hk.
Qed.

Lemma constant_ok_run {A} (m : M A) a w :
  constant m (Ok a) -> exists w', m w = (Ok a, w').
Proof.
  intros Hm. specialize (Hm w). unfold value in Hm.
  destruct (m w) as [r w'] eqn:E. simpl in Hm. subst. eauto.
Qed.

(** ** Go built-ins *)

Lemma length_make_bytes n : length (make_bytes n) = n.
Proof. apply length_replicate. Qed.

Lemma length_copy dst src : length (copy dst src) = length dst.
Proof.
  unfold copy. rewrite length_app, length_take, length_drop. lia.
Qed.

Lemma copy_exact dst src : length src = length dst -> copy dst src = src.
Proof.
  intros H. unfold copy. rewrite <- H, firstn_all.
  rewrite drop_ge by lia. apply app_nil_r.
Qed.

Lemma to_array_copy n src w :
  to_array n (copy (make_bytes n) src) w = (Ok (copy (make_bytes n) src), w).
Proof.
  unfold to_array. rewrite length_copy, length_make_bytes.
  rewrite Nat.ltb_irrefl. unfold mret, M_ret, ret. f_equal. f_equal.
  apply take_ge. rewrite length_copy, length_make_bytes. lia.
Qed.

Lemma store_ok {A} (l : list A) i x w :
  i < length l -> store l i x w = (Ok (<[i:=x]> l), w).
Proof.
  intros H. unfold store. apply Nat.ltb_lt in H. rewrite H. reflexivity.
Qed.

Section Properties.

Context {ext : Externals}.

Implicit Types (o : Operator) (pv : ProofVerificationData) (w : World).

(** ** The verifiers return, whatever the world *)

Lemma verifyPlonkProof_constant o proofBytes pubInputBytes vkBytes curve :
  exists b, constant (verifyPlonkProof o proofBytes pubInputBytes vkBytes curve) (Ok b).
Proof.
  unfold verifyPlonkProof.
  repeat case_match; eexists; intros ?; reflexivity.
Qed.

Lemma VerifySp1Proof_constant proofBuffer proofLen elfBuffer elfLen :
  exists b, constant (VerifySp1Proof proofBuffer proofLen elfBuffer elfLen) (Ok b).
Proof.
  unfold VerifySp1Proof.
  case_match; eexists; intros ?; reflexivity.
Qed.

Lemma constant_to_array_copy n src :
  constant (to_array n (copy (make_bytes n) src)) (Ok (copy (make_bytes n) src)).
Proof. intros w. unfold value. by rewrite to_array_copy. Qed.

Lemma verifyProof_constant o pv proof :
  exists v, constant (verifyProof o pv proof) (Ok v).
Proof.
  unfold verifyProof, verifyPlonkProofBLS12_381, verifyPlonkProofBN254.
  repeat case_match.
  - destruct (verifyPlonkProof_constant o proof (PubInput pv)
                (VerificationKey pv) BLS12_381) as [b Hb].
    exists (Some b). eapply constant_bind; [exact Hb|].
    intros ?; reflexivity.
  - destruct (verifyPlonkProof_constant o proof (PubInput pv)
                (VerificationKey pv) BN254) as [b Hb].
    exists (Some b). eapply constant_bind; [exact Hb|].
    intros ?; reflexivity.
  - destruct (VerifySp1Proof_constant
                (copy (make_bytes MaxProofSize) proof) (length proof)
                (copy (make_bytes MaxElfBufferSize) (PubInput pv))
                (length (PubInput pv))) as [b Hb].
    exists (Some b).
    eapply constant_bind; [apply constant_to_array_copy|].
    eapply constant_bind; [apply constant_to_array_copy|].
    eapply constant_bind; [exact Hb|].
    intros ?; reflexivity.
  - exists None. intros ?; reflexivity.
Qed.

Lemma resolveProof_constant o pv :
  exists p, constant (resolveProof o pv) (Ok p).
Proof.
  unfold resolveProof, getProofFromEigenDA, getProofFromCelestia.
  repeat case_match; try (eexists; intros ?; reflexivity).
  - destruct (eigenda_blob _ _); eexists; intros ?; reflexivity.
  - destruct (celestia_blob _ _ _); eexists; intros ?; reflexivity.
Qed.

Lemma processProof_constant o pv :
  exists v, constant (processProof o pv) (Ok v).
Proof.
  unfold processProof.
  destruct (resolveProof_constant o pv) as [[proof|] Hp].
  - destruct (verifyProof_constant o pv proof) as [v Hv].
    exists v. eapply constant_bind; [exact Hp | exact Hv].
  - exists None. eapply constant_bind; [exact Hp |]. intros ?; reflexivity.
Qed.

(** ** The loop of [ProcessNewTaskCreatedLog] *)

Lemma verifyLoop_cons_some o i pv rest (results : list bool) w b w' :
  processProof o pv w = (Ok (Some b), w') ->
  i < length results ->
  verifyLoop o i (pv :: rest) results w
  = verifyLoop o (S i) rest (<[i:=b]> results) w'.
Proof.
  intros Hp Hi. simpl.
  rewrite (run_bind_ok _ _ _ _ _ Hp).
  by rewrite (run_bind_ok _ _ _ _ _ (store_ok results i b w' Hi)).
Qed.

Lemma verifyLoop_cons_none o i pv rest (results : list bool) w w' :
  processProof o pv w = (Ok None, w') ->
  verifyLoop o i (pv :: rest) results w = (Ok None, w').
Proof. intros Hp. simpl. by rewrite (run_bind_ok _ _ _ _ _ Hp). Qed.

(** What the loop leaves in the vector: the slots before [i] untouched,
    slot [i + j] holding the result of the [j]-th remaining proof. *)
Lemma verifyLoop_results o rest :
  forall i (results : list bool) w (R : list bool) w',
    verifyLoop o i rest results w = (Ok (Some R), w') ->
    i + length rest <= length results ->
    length R = length results /\
    (forall j, j < i -> R !! j = results !! j) /\
    (forall j pv, rest !! j = Some pv ->
       exists b, R !! (i + j) = Some b /\
                 constant (processProof o pv) (Ok (Some b))).
Proof.
  induction rest as [|pv rest IH]; intros i results w R w' Hrun Hlen.
  - simpl in Hrun. unfold mret, M_ret, ret in Hrun. simplify_eq.
    split; [done|]. split; [done|]. intros j pv Hj. by destruct j.
  - destruct (processProof_constant o pv) as [v Hv].
    destruct (constant_ok_run _ _ w Hv) as [w1 Hw1].
    simpl in Hlen. destruct v as [b|].
    + rewrite (verifyLoop_cons_some _ _ _ _ _ _ _ _ Hw1) in Hrun by lia.
      apply IH in Hrun; [|rewrite length_insert; lia].
      destruct Hrun as (HlenR & Hpre & Hrest).
      rewrite length_insert in HlenR.
      split; [done|]. split.
      * intros j Hj. rewrite Hpre by lia.
        apply list_lookup_insert_ne. lia.
      * intros [|j] pv' Hlk; simpl in Hlk.
        -- simplify_eq. exists b. rewrite Nat.add_0_r, Hpre by lia.
           split; [apply list_lookup_insert_eq; lia | done].
        -- destruct (Hrest j pv' Hlk) as (b' & Hb' & Hc).
           exists b'. by replace (i + S j) with (S i + j) by lia.
    + rewrite (verifyLoop_cons_none _ _ _ _ _ _ _ Hw1) in Hrun. discriminate.
Qed.

(** One proof that is given up on gives up the task. *)
Lemma verifyLoop_abandon o rest :
  forall i (results : list bool) w,
    (exists pv, pv ∈ rest /\ constant (processProof o pv) (Ok None)) ->
    i + length rest <= length results ->
    exists w', verifyLoop o i rest results w = (Ok None, w').
Proof.
  induction rest as [|pv rest IH]; intros i results w (bad & Hin & Hbad) Hlen.
  - by apply not_elem_of_nil in Hin.
  - destruct (processProof_constant o pv) as [v Hv].
    destruct (constant_ok_run _ _ w Hv) as [w1 Hw1].
    simpl in Hlen. destruct v as [b|].
    + rewrite (verifyLoop_cons_some _ _ _ _ _ _ _ _ Hw1) by lia.
      apply IH; [|rewrite length_insert; lia].
      apply elem_of_cons in Hin as [->|Hin]; [|eauto].
      specialize (Hbad w). unfold value in Hbad. rewrite Hw1 in Hbad.
      discriminate.
    + rewrite (verifyLoop_cons_none _ _ _ _ _ _ _ Hw1). eauto.
Qed.

(** When every proof yields a verdict the loop runs to its end. *)
Lemma verifyLoop_complete o rest :
  forall i (results : list bool) w,
    (forall pv, pv ∈ rest -> exists b, constant (processProof o pv) (Ok (Some b))) ->
    i + length rest <= length results ->
    exists R w', verifyLoop o i rest results w = (Ok (Some R), w').
Proof.
  induction rest as [|pv rest IH]; intros i results w Hall Hlen.
  - simpl. eauto.
  - destruct (Hall pv) as [b Hb]; [apply elem_of_cons; by left|].
    destruct (constant_ok_run _ _ w Hb) as [w1 Hw1].
    simpl in Hlen.
    rewrite (verifyLoop_cons_some _ _ _ _ _ _ _ _ Hw1) by lia.
    apply IH; [|rewrite length_insert; lia].
    intros pv' Hin. apply Hall. apply elem_of_cons. by right.
Qed.

Lemma ProcessNewTaskCreatedLog_run o T w :
  ProcessNewTaskCreatedLog o T w =
  let pvs := ProofVerificationsData (BatchProofVerificationTask_of T) in
  match verifyLoop o 0 pvs (replicate (length pvs) false) (received_task w) with
  | (Ok (Some results), w') =>
      (Ok (Some {| RespTaskIndex := TaskIndex T; ProofResults := results |}), w')
  | (Ok None, w') => (Ok None, w')
  | (Panic msg, w') => (Panic msg, w')
  end.
Proof.
  unfold ProcessNewTaskCreatedLog. rewrite run_bind. simpl.
  rewrite run_bind. unfold received_task, after. simpl.
  destruct (verifyLoop _ _ _ _ _) as [[[results|]|msg] w']; reflexivity.
Qed.

(** The loop runs without a panic: its stores stay within the vector. *)
Lemma verifyLoop_returns o rest :
  forall i (results : list bool) w,
    i + length rest <= length results ->
    exists r w', verifyLoop o i rest results w = (Ok r, w').
Proof.
  induction rest as [|pv rest IH]; intros i results w Hlen.
  - simpl. eauto.
  - destruct (processProof_constant o pv) as [v Hv].
    destruct (constant_ok_run _ _ w Hv) as [w1 Hw1].
    simpl in Hlen. destruct v as [b|].
    + rewrite (verifyLoop_cons_some _ _ _ _ _ _ _ _ Hw1) by lia.
      apply IH. rewrite length_insert. lia.
    + rewrite (verifyLoop_cons_none _ _ _ _ _ _ _ Hw1). eauto.
Qed.

Lemma ProcessNewTaskCreatedLog_returns o T w :
  exists r w', ProcessNewTaskCreatedLog o T w = (Ok r, w').
Proof.
  rewrite ProcessNewTaskCreatedLog_run. simpl.
  set (pvs := ProofVerificationsData (BatchProofVerificationTask_of T)).
  destruct (verifyLoop_returns o pvs 0 (replicate (length pvs) false)
              (received_task w)) as ([results|] & w' & Hloop).
  - rewrite length_replicate. simpl. lia.
  - rewrite Hloop. eauto.
  - rewrite Hloop. eauto.
Qed.

(** C1. Whenever [ProcessNewTaskCreatedLog] returns a response [R] for a
    task [T] (not nil), [R] has one result per proof of [T], carries the
    task index of [T], and its [i]-th result is the verdict of the [i]-th
    proof: the value that resolving and verifying that proof returns, in
    whatever world it is run. *)
Theorem ProcessNewTaskCreatedLog_results o T w R w' :
  ProcessNewTaskCreatedLog o T w = (Ok (Some R), w') ->
  let pvs := ProofVerificationsData (BatchProofVerificationTask_of T) in
  length (ProofResults R) = length pvs /\
  RespTaskIndex R = TaskIndex T /\
  forall i pv, pvs !! i = Some pv ->
    exists b, ProofResults R !! i = Some b /\
              constant (processProof o pv) (Ok (Some b)).
Proof.
  rewrite ProcessNewTaskCreatedLog_run. intros Hrun pvs. simpl in Hrun.
  fold pvs in Hrun.
  destruct (verifyLoop _ _ _ _ _) as [[[results|]|msg] w1] eqn:Hloop;
    simplify_eq.
  apply verifyLoop_results in Hloop; [|rewrite length_replicate; simpl; lia].
  destruct Hloop as (Hlen & _ & Hrest). rewrite length_replicate in Hlen.
  simpl. split; [done|]. split; [done|]. exact Hrest.
Qed.

(** ** The two switches of an iteration *)

Ltac zeqb :=
  repeat match goal with
         | H : ?a = ?b |- context [(?a =? ?b)%Z] =>
             rewrite (proj2 (Z.eqb_eq a b) H)
         | H : ?a <> ?b |- context [(?a =? ?b)%Z] =>
             rewrite (proj2 (Z.eqb_neq a b) H)
         end.

Lemma resolveProof_Calldata o pv w :
  Solution (DAPayload_of pv) = Calldata ->
  resolveProof o pv w = (Ok (Some (ProofAssociatedData (DAPayload_of pv))), w).
Proof. intros H. unfold resolveProof. simpl. zeqb. reflexivity. Qed.

Lemma resolveProof_unknown_solution o pv w :
  unknown_solution pv -> resolveProof o pv w = (Ok (Some []), w).
Proof.
  intros (H1 & H2 & H3). unfold resolveProof. simpl. zeqb. reflexivity.
Qed.

Lemma resolveProof_fetch_fails o pv :
  da_tags_distinct -> fetch_fails o pv -> constant (resolveProof o pv) (Ok None).
Proof.
  intros (D1 & D2 & D3) [[Hs [e He]]|[Hs [e He]]] w;
    unfold resolveProof, getProofFromEigenDA, getProofFromCelestia; simpl.
  - assert (Solution (DAPayload_of pv) <> Calldata) by congruence.
    zeqb. unfold value. rewrite !run_bind. simpl. by rewrite He.
  - assert (Solution (DAPayload_of pv) <> Calldata) by congruence.
    assert (Solution (DAPayload_of pv) <> EigenDA) by congruence.
    zeqb. unfold value. rewrite !run_bind. simpl. by rewrite He.
Qed.

Lemma resolveProof_fetched o pv :
  da_tags_distinct -> ~ fetch_fails o pv ->
  exists proof, constant (resolveProof o pv) (Ok (Some proof)).
Proof.
  intros HD Hno. destruct (resolveProof_constant o pv) as [[proof|] Hp]; [eauto|].
  exfalso. apply Hno. specialize (Hp world0). revert Hp.
  unfold fetch_fails, resolveProof, getProofFromEigenDA, getProofFromCelestia, value.
  simpl. repeat case_match; rewrite ?run_bind; simpl; try discriminate.
  - destruct (eigenda_blob _ _) eqn:E; [discriminate|].
    intros _. left. split; [by apply Z.eqb_eq | eauto].
  - destruct (celestia_blob _ _ _) eqn:E; [discriminate|].
    intros _. right. split; [by apply Z.eqb_eq | eauto].
Qed.

Lemma verifyProof_unknown_system o pv proof :
  unknown_system pv -> constant (verifyProof o pv proof) (Ok None).
Proof.
  intros (H1 & H2 & H3) w. unfold verifyProof. zeqb. reflexivity.
Qed.

Lemma verifyProof_known_system o pv proof :
  known_system pv -> exists b, constant (verifyProof o pv proof) (Ok (Some b)).
Proof.
  intros Hk. destruct (verifyProof_constant o pv proof) as [[b|] Hv]; [eauto|].
  exfalso. specialize (Hv world0). revert Hv.
  unfold verifyProof, value. repeat case_match.
  - rewrite run_bind.
    destruct (verifyPlonkProofBLS12_381 _ _ _ _ _) as [[?|?] ?]; discriminate.
  - rewrite run_bind.
    destruct (verifyPlonkProofBN254 _ _ _ _ _) as [[?|?] ?]; discriminate.
  - rewrite run_bind, to_array_copy, run_bind, to_array_copy, run_bind.
    destruct (VerifySp1Proof _ _ _ _ _) as [[?|?] ?]; discriminate.
  - destruct Hk as [Hk|[Hk|Hk]]; apply Z.eqb_eq in Hk; congruence.
Qed.

Lemma processProof_abandons o pv :
  da_tags_distinct -> fetch_fails o pv \/ unknown_system pv ->
  constant (processProof o pv) (Ok None).
Proof.
  intros HD [Hf|Hu]; unfold processProof.
  - eapply constant_bind; [by apply resolveProof_fetch_fails|].
    apply constant_mret.
  - destruct (resolveProof_constant o pv) as [[proof|] Hp].
    + eapply constant_bind; [exact Hp|]. by apply verifyProof_unknown_system.
    + eapply constant_bind; [exact Hp|]. apply constant_mret.
Qed.

Lemma processProof_verdict o pv :
  da_tags_distinct -> ~ (fetch_fails o pv \/ unknown_system pv) ->
  exists b, constant (processProof o pv) (Ok (Some b)).
Proof.
  intros HD Hgood.
  destruct (resolveProof_fetched o pv HD) as [proof Hp]; [tauto|].
  assert (known_system pv) as Hk.
  { unfold known_system, unknown_system in *.
    destruct (decide (ProvingSystemId pv = GnarkPlonkBls12_381)); [tauto|].
    destruct (decide (ProvingSystemId pv = GnarkPlonkBn254)); [tauto|].
    destruct (decide (ProvingSystemId pv = SP1)); tauto. }
  destruct (verifyProof_known_system o pv proof Hk) as [b Hb].
  exists b. unfold processProof. eapply constant_bind; [exact Hp | exact Hb].
Qed.

Lemma ProcessNewTaskCreatedLog_abandon o T w :
  da_tags_distinct ->
  (exists pv, pv ∈ ProofVerificationsData (BatchProofVerificationTask_of T) /\
              (fetch_fails o pv \/ unknown_system pv)) ->
  exists w', ProcessNewTaskCreatedLog o T w = (Ok None, w').
Proof.
  intros HD (pv & Hin & Hbad).
  rewrite ProcessNewTaskCreatedLog_run. simpl.
  set (pvs := ProofVerificationsData (BatchProofVerificationTask_of T)) in *.
  destruct (verifyLoop_abandon o pvs 0 (replicate (length pvs) false)
              (received_task w)) as [w' Hw'].
  - exists pv. split; [done|]. by apply processProof_abandons.
  - rewrite length_replicate. simpl. lia.
  - rewrite Hw'. eauto.
Qed.

(** C2. A proof whose verdict is a failure has [false] at its index in the
    response, which the later proofs fill as well; a proof whose fetch from
    EigenDA or Celestia fails, or whose proving system is none of the three,
    makes [ProcessNewTaskCreatedLog] return nil, with no result vector.
    The function returns nil exactly in that case. *)
Theorem ProcessNewTaskCreatedLog_false_or_abandon o T w :
  da_tags_distinct ->
  let pvs := ProofVerificationsData (BatchProofVerificationTask_of T) in
  ((exists pv, pv ∈ pvs /\ (fetch_fails o pv \/ unknown_system pv)) ->
   exists w', ProcessNewTaskCreatedLog o T w = (Ok None, w')) /\
  ((forall pv, pv ∈ pvs -> ~ (fetch_fails o pv \/ unknown_system pv)) ->
   exists R w', ProcessNewTaskCreatedLog o T w = (Ok (Some R), w') /\
     length (ProofResults R) = length pvs /\
     forall i pv, pvs !! i = Some pv ->
       constant (processProof o pv) (Ok (Some false)) ->
       ProofResults R !! i = Some false).
Proof.
  intros HD pvs. split.
  - by apply ProcessNewTaskCreatedLog_abandon.
  - intros Hall.
    destruct (verifyLoop_complete o pvs 0 (replicate (length pvs) false)
                (received_task w)) as (results & w' & Hloop).
    + intros pv Hin. apply processProof_verdict; auto.
    + rewrite length_replicate. simpl. lia.
    + assert (ProcessNewTaskCreatedLog o T w
              = (Ok (Some {| RespTaskIndex := TaskIndex T;
                             ProofResults := results |}), w')) as Hrun.
      { rewrite ProcessNewTaskCreatedLog_run. simpl. fold pvs.
        by rewrite Hloop. }
      eexists _, w'. split; [exact Hrun|].
      apply verifyLoop_results in Hloop; [|rewrite length_replicate; simpl; lia].
      destruct Hloop as (Hlen & _ & Hres). rewrite length_replicate in Hlen.
      split; [exact Hlen|].
      intros i pv Hlk Hfalse. destruct (Hres i pv Hlk) as (b & Hb & Hc).
      simpl in *. rewrite Hb. f_equal.
      specialize (Hc world0). specialize (Hfalse world0). congruence.
Qed.

(** C7. For a payload tagged [Calldata] the bytes handed to the verifier
    are [ProofAssociatedData], unchanged; resolving them leaves the world
    as it was (no call to a backend, no log line) and yields neither a
    panic nor the nil return that gives up the task. *)
Theorem resolveProof_Calldata_verbatim o pv w :
  Solution (DAPayload_of pv) = Calldata ->
  resolveProof o pv w = (Ok (Some (ProofAssociatedData (DAPayload_of pv))), w) /\
  processProof o pv w = verifyProof o pv (ProofAssociatedData (DAPayload_of pv)) w.
Proof.
  intros H. pose proof (resolveProof_Calldata o pv w H) as Hr.
  split; [exact Hr|]. unfold processProof. by rewrite (run_bind_ok _ _ _ _ _ Hr).
Qed.

(** C5. An SP1 proof whose bytes are longer than [MaxProofSize], or whose
    ELF (the public input) is longer than [MaxElfBufferSize], is verified
    without a panic, its verdict is [false], and [false] is what the loop
    stores at its index before going on. *)
Theorem sp1_oversized_is_false o pv proof i rest (results : list bool) w w1 :
  proving_systems_distinct ->
  ProvingSystemId pv = SP1 ->
  resolveProof o pv w = (Ok (Some proof), w1) ->
  MaxProofSize < length proof \/ MaxElfBufferSize < length (PubInput pv) ->
  i < length results ->
  exists w', verifyProof o pv proof w1 = (Ok (Some false), w') /\
    verifyLoop o i (pv :: rest) results w
    = verifyLoop o (S i) rest (<[i:=false]> results) w'.
Proof.
  intros (D1 & D2 & D3) Hid Hr Hbig Hi.
  assert (ProvingSystemId pv <> GnarkPlonkBls12_381) by congruence.
  assert (ProvingSystemId pv <> GnarkPlonkBn254) by congruence.
  assert ((MaxProofSize <? length proof) || (MaxElfBufferSize <? length (PubInput pv))
          = true) as Hcond.
  { apply orb_true_iff. rewrite !Nat.ltb_lt. exact Hbig. }
  assert (exists w', verifyProof o pv proof w1 = (Ok (Some false), w')) as [w' Hw'].
  { unfold verifyProof. zeqb.
    rewrite run_bind, to_array_copy, run_bind, to_array_copy.
    unfold VerifySp1Proof. rewrite Hcond. eexists. reflexivity. }
  exists w'. split; [exact Hw'|].
  apply verifyLoop_cons_some; [|exact Hi].
  unfold processProof. by rewrite (run_bind_ok _ _ _ _ _ Hr).
Qed.

(** C8. [verifyPlonkProof] reads the proof, then instantiates and reads the
    public witness over the curve, then reads the verifying key, then
    verifies: the calls it makes are those of [plonk_calls], in that order,
    cut after the first step that fails. A failed step gives [false]; when
    all succeed the result is [true] exactly when [plonk.Verify] returns
    no error. *)
Theorem verifyPlonkProof_spec o p i k c w :
  let r := verifyPlonkProof o p i k c w in
  let made n := calls (after r) = calls w ++ take n (plonk_calls c p i k) in
  ((exists e, proof_ReadFrom c p = inr e) -> value r = Ok false /\ made 1) /\
  (forall pr, proof_ReadFrom c p = inl pr ->
     ((exists e, witness_New c = inr e) -> value r = Ok false /\ made 2) /\
     (forall fresh, witness_New c = inl fresh ->
        ((exists e, witness_ReadFrom fresh i = inr e) ->
         value r = Ok false /\ made 3) /\
        (forall wt, witness_ReadFrom fresh i = inl wt ->
           ((exists e, verifyingKey_ReadFrom c k = inr e) ->
            value r = Ok false /\ made 4) /\
           (forall vk, verifyingKey_ReadFrom c k = inl vk ->
              made 5 /\
              exists b, value r = Ok b /\
                        (b = true <-> plonk_Verify pr vk wt = None))))).
Proof.
  unfold verifyPlonkProof, plonk_calls, value, after. simpl.
  split.
  { intros [e He]. rewrite He. by mcbv. }
  intros pr Hpr. rewrite Hpr. split.
  { intros [e He]. rewrite He. mcbv. by rewrite <- !app_assoc. }
  intros fresh Hfresh. rewrite Hfresh. split.
  { intros [e He]. rewrite He. mcbv. by rewrite <- !app_assoc. }
  intros wt Hwt. rewrite Hwt. split.
  { intros [e He]. rewrite He. mcbv. by rewrite <- !app_assoc. }
  intros vk Hvk. rewrite Hvk.
  destruct (plonk_Verify pr vk wt) as [e|] eqn:Hv; mcbv.
  - split; [by rewrite <- !app_assoc|]. exists false. by split.
  - split; [by rewrite <- !app_assoc|]. exists true. by split.
Qed.

Lemma slice_to_Keccak256 (b : bytes) w :
  slice_to 32 (Keccak256 b) w = (Ok (Keccak256 b), w).
Proof.
  unfold slice_to. rewrite Keccak256_length. simpl.
  by rewrite take_ge by (rewrite Keccak256_length; lia).
Qed.

(** The digest array holds the whole hash. *)
Lemma digest_Keccak256 (b : bytes) :
  copy (make_bytes 32) (Keccak256 b) = Keccak256 b.
Proof.
  apply copy_exact. rewrite Keccak256_length. symmetry. apply length_make_bytes.
Qed.

(** An encoding error is handed back, with no signature. *)
Lemma SignTaskResponse_error o (R : TaskResponse) w e :
  AbiEncodeTaskResponse R = inr e ->
  SignTaskResponse o (Some R) w
  = (Ok (inr e),
     {| logs := logs w; calls := calls w ++ [CallAbiEncodeTaskResponse R] |}).
Proof.
  intros He. unfold SignTaskResponse.
  erewrite run_bind_ok; [|reflexivity].
  erewrite run_bind_ok; [|reflexivity].
  by rewrite He.
Qed.

(** C9. [SignTaskResponse] on a given response with a given key pair
    returns the same value in whatever world it runs: its result depends
    on nothing else. When the response encodes, the value is the signature
    of the 32-byte Keccak-256 digest of the encoding, and that digest is
    the message passed to [SignMessage]. *)
Theorem SignTaskResponse_deterministic o (R : TaskResponse) w1 w2 :
  value (SignTaskResponse o (Some R) w1) = value (SignTaskResponse o (Some R) w2) /\
  forall encoded, AbiEncodeTaskResponse R = inl encoded ->
    let digest := Keccak256 encoded in
    length digest = 32 /\
    forall w, SignTaskResponse o (Some R) w
              = (Ok (inl (SignMessage (BlsKeyPair o) digest)),
                 {| logs := logs w;
                    calls := calls w ++ [CallAbiEncodeTaskResponse R;
                                         CallSignMessage digest] |}).
Proof.
  assert (forall encoded w, AbiEncodeTaskResponse R = inl encoded ->
            SignTaskResponse o (Some R) w
            = (Ok (inl (SignMessage (BlsKeyPair o) (Keccak256 encoded))),
               {| logs := logs w;
                  calls := calls w ++ [CallAbiEncodeTaskResponse R;
                                       CallSignMessage (Keccak256 encoded)] |}))
    as Hrun.
  { intros encoded w He. unfold SignTaskResponse.
    erewrite run_bind_ok; [|reflexivity].
    erewrite run_bind_ok; [|reflexivity].
    rewrite He.
    erewrite run_bind_ok; [|apply slice_to_Keccak256].
    rewrite digest_Keccak256. mcbv. by rewrite <- app_assoc. }
  split.
  - destruct (AbiEncodeTaskResponse R) as [encoded|e] eqn:He.
    + by rewrite !(Hrun encoded).
    + by rewrite !(SignTaskResponse_error _ _ _ e).
  - intros encoded He digest. split; [apply Keccak256_length|].
    intros w. by apply Hrun.
Qed.

(** ** What reaches the aggregator *)

Lemma quiet_mret {A} (a : A) : quiet (mret a).
Proof. intros w. reflexivity. Qed.

Lemma quiet_panic {A} msg : quiet (@panic A msg).
Proof. intros w. reflexivity. Qed.

Lemma quiet_log lvl msg : quiet (log lvl msg).
Proof. intros w. reflexivity. Qed.

Lemma quiet_call c : is_send c = false -> quiet (call c).
Proof.
  intros Hc w. unfold sends, call, after. simpl.
  rewrite omap_app. simpl. destruct c; try discriminate; apply app_nil_r.
Qed.

Lemma quiet_bind {A B} (m : M A) (k : A -> M B) :
  quiet m -> (forall a, quiet (k a)) -> quiet (m ≫= k).
Proof.
  intros Hm Hk w. specialize (Hm w). rewrite run_bind.
  destruct (m w) as [[a|msg] w1]; simpl in Hm; [|done].
  by rewrite (Hk a w1).
Qed.

Ltac solve_quiet :=
  repeat first
    [ apply quiet_mret
    | apply quiet_panic
    | apply quiet_log
    | apply quiet_call; reflexivity
    | apply quiet_bind; [|intros ?]
    | case_match ].

Lemma quiet_verifyPlonkProof o p i k c : quiet (verifyPlonkProof o p i k c).
Proof. unfold verifyPlonkProof. solve_quiet. Qed.

Lemma quiet_processProof o pv : quiet (processProof o pv).
Proof.
  unfold processProof, resolveProof, verifyProof, getProofFromEigenDA,
    getProofFromCelestia, verifyPlonkProofBLS12_381, verifyPlonkProofBN254,
    VerifySp1Proof, to_array.
  cbv zeta.
  repeat first
    [ apply quiet_verifyPlonkProof
    | apply quiet_mret
    | apply quiet_panic
    | apply quiet_log
    | apply quiet_call; reflexivity
    | apply quiet_bind; [|intros ?]
    | case_match ].
Qed.

Lemma quiet_verifyLoop o rest :
  forall i (results : list bool), quiet (verifyLoop o i rest results).
Proof.
  induction rest as [|pv rest IH]; intros i results; simpl.
  - apply quiet_mret.
  - apply quiet_bind; [apply quiet_processProof|]. intros [b|].
    + apply quiet_bind; [unfold store; solve_quiet|]. intros results'. apply IH.
    + apply quiet_mret.
Qed.

Lemma quiet_ProcessNewTaskCreatedLog o T : quiet (ProcessNewTaskCreatedLog o T).
Proof.
  unfold ProcessNewTaskCreatedLog. cbv zeta.
  apply quiet_bind; [apply quiet_log|]. intros _.
  apply quiet_bind; [apply quiet_verifyLoop|]. intros [results|]; apply quiet_mret.
Qed.

(** ** One task in the loop of [Start] *)

Lemma handleNewTask_nil o T w w1 :
  ProcessNewTaskCreatedLog o T (received_index w) = (Ok None, w1) ->
  handleNewTask o T w = (Panic nil_deref, w1).
Proof.
  intros Hp. unfold handleNewTask.
  erewrite run_bind_ok; [|reflexivity].
  erewrite run_bind_ok; [|exact Hp].
  reflexivity.
Qed.

Lemma handleNewTask_sign_error o T w (R : TaskResponse) w1 e :
  ProcessNewTaskCreatedLog o T (received_index w) = (Ok (Some R), w1) ->
  AbiEncodeTaskResponse R = inr e ->
  handleNewTask o T w
  = (Panic nil_deref,
     {| logs := logs w1 ++ [(Error, "Could not sign task response"%string)];
        calls := calls w1 ++ [CallAbiEncodeTaskResponse R] |}).
Proof.
  intros Hp He. unfold handleNewTask.
  erewrite run_bind_ok; [|reflexivity].
  erewrite run_bind_ok; [|exact Hp].
  erewrite run_bind_ok; [|by apply SignTaskResponse_error].
  reflexivity.
Qed.

Lemma StartLoop_task o ctx T signals w :
  StartLoop o ctx (SigTask T :: signals) w
  = (handleNewTask o T ≫= fun _ => StartLoop o ctx signals) w.
Proof. reflexivity. Qed.

Lemma StartLoop_ctx o signals :
  forall ctx1 ctx2 w, StartLoop o ctx1 signals w = StartLoop o ctx2 signals w.
Proof.
  induction signals as [|[|err|T] signals IH]; intros ctx1 ctx2 w.
  - reflexivity.
  - simpl. apply IH.
  - simpl. rewrite !run_bind. simpl. rewrite !run_bind. simpl.
    unfold SubscribeToNewTasks. rewrite !run_bind. simpl. apply IH.
  - rewrite !StartLoop_task, !run_bind.
    destruct (handleNewTask o T w) as [[[]|msg] w1]; [apply IH | reflexivity].
Qed.

Lemma StartLoop_never_returns o signals :
  forall ctx w, value (StartLoop o ctx signals w) <> Ok Returned.
Proof.
  induction signals as [|[|err|T] signals IH]; intros ctx w.
  - simpl. discriminate.
  - simpl. apply IH.
  - simpl. rewrite !run_bind. simpl. rewrite !run_bind. simpl.
    unfold SubscribeToNewTasks. rewrite !run_bind. simpl. apply IH.
  - rewrite StartLoop_task, run_bind.
    destruct (handleNewTask o T w) as [[[]|msg] w1]; [apply IH | discriminate].
Qed.

(** C3. A task that is abandoned (a fetch fails, or a proving system is
    unknown) makes the loop of [Start] panic with a nil dereference in
    [SignTaskResponse]: nothing is submitted for it, and the signals after
    it are never handled. *)
Theorem StartLoop_abandoned_task_panics o ctx T signals w :
  da_tags_distinct ->
  (exists pv, pv ∈ ProofVerificationsData (BatchProofVerificationTask_of T) /\
              (fetch_fails o pv \/ unknown_system pv)) ->
  exists w', StartLoop o ctx (SigTask T :: signals) w = (Panic nil_deref, w') /\
             sends w' = sends w.
Proof.
  intros HD Hbad.
  destruct (ProcessNewTaskCreatedLog_abandon o T (received_index w) HD Hbad)
    as [w1 Hw1].
  exists w1. split.
  - rewrite StartLoop_task, run_bind.
    by rewrite (handleNewTask_nil _ _ _ _ Hw1).
  - pose proof (quiet_ProcessNewTaskCreatedLog o T (received_index w)) as Hq.
    rewrite Hw1 in Hq. exact Hq.
Qed.

(** C4. Cancelling the context given to [Start] changes nothing: the run
    is the same with and without the cancellation, whatever context is
    passed, and it never ends in [return nil]. *)
Theorem Start_ignores_cancellation o ctx signals w :
  Start o ctx (SigCancel :: signals) w = Start o ctx signals w /\
  (forall ctx', Start o ctx' signals w = Start o ctx signals w) /\
  value (Start o ctx signals w) <> Ok Returned.
Proof.
  unfold Start, SubscribeToNewTasks. rewrite !run_bind. simpl.
  split; [apply StartLoop_ctx|]. split.
  - intros ctx'. rewrite !run_bind. simpl. apply StartLoop_ctx.
  - apply StartLoop_never_returns.
Qed.

(** C6. When the response of a task does not sign, the loop of [Start]
    logs the error and then panics on the nil signature: nothing is
    submitted for the task, and the signals after it are never handled. *)
Theorem StartLoop_sign_error_panics o ctx T signals w (R : TaskResponse) w1 e :
  ProcessNewTaskCreatedLog o T (received_index w) = (Ok (Some R), w1) ->
  AbiEncodeTaskResponse R = inr e ->
  StartLoop o ctx (SigTask T :: signals) w
  = (Panic nil_deref,
     {| logs := logs w1 ++ [(Error, "Could not sign task response"%string)];
        calls := calls w1 ++ [CallAbiEncodeTaskResponse R] |}).
Proof.
  intros Hp He. rewrite StartLoop_task, run_bind.
  by rewrite (handleNewTask_sign_error _ _ _ _ _ _ Hp He).
Qed.

End Properties.

(** * The theorems at the fixtures *)

Section AtFixtures.

Import Fixtures.

Lemma toy_da_tags_distinct : @da_tags_distinct toy.
Proof. by repeat split. Defined.

Lemma toy_proving_systems_distinct : @proving_systems_distinct toy.
Proof. by repeat split. Defined.

Lemma ProcessNewTaskCreatedLog_results_witness :
  ProcessNewTaskCreatedLog toy_op task_mixed world0
  = (Ok (Some response_mixed),
     after (ProcessNewTaskCreatedLog toy_op task_mixed world0)) /\
  (length (ProofResults response_mixed) = 3 /\
   RespTaskIndex response_mixed = 5%Z /\
   forall i pv, [pv_valid; pv_invalid; pv_valid] !! i = Some pv ->
     exists b, ProofResults response_mixed !! i = Some b /\
               constant (processProof toy_op pv) (Ok (Some b))).
Proof.
  split; [vm_compute; reflexivity|].
  apply (ProcessNewTaskCreatedLog_results toy_op task_mixed world0 response_mixed
           (after (ProcessNewTaskCreatedLog toy_op task_mixed world0))).
  vm_compute; reflexivity.
Defined.

Lemma fixtures_unknown_system : @unknown_system toy pv_unknown_system.
Proof. by repeat split. Defined.

Lemma fixtures_has_unknown_system :
  exists pv, pv ∈ [pv_valid; pv_unknown_system] /\
             (fetch_fails toy_op pv \/ @unknown_system toy pv).
Proof.
  exists pv_unknown_system. split.
  - apply elem_of_cons. right. apply elem_of_cons. by left.
  - right. exact fixtures_unknown_system.
Defined.

Lemma fixtures_mixed_all_verdicts :
  forall pv, pv ∈ [pv_valid; pv_invalid; pv_valid] ->
             ~ (fetch_fails toy_op pv \/ @unknown_system toy pv).
Proof.
  intros pv Hin. apply list_elem_of_In in Hin. simpl in Hin.
  destruct Hin as [<-|[<-|[<-|[]]]];
    intros [[[H _]|[H _]]|(H1 & H2 & H3)];
    try (vm_compute in H; discriminate); by apply H2.
Defined.

Lemma ProcessNewTaskCreatedLog_false_or_abandon_witness :
  @da_tags_distinct toy /\
  (exists pv, pv ∈ [pv_valid; pv_unknown_system] /\
              (fetch_fails toy_op pv \/ @unknown_system toy pv)) /\
  (exists w', ProcessNewTaskCreatedLog toy_op task_unknown_system world0
              = (Ok None, w')) /\
  (forall pv, pv ∈ [pv_valid; pv_invalid; pv_valid] ->
              ~ (fetch_fails toy_op pv \/ @unknown_system toy pv)) /\
  (exists R w',
     ProcessNewTaskCreatedLog toy_op task_mixed world0 = (Ok (Some R), w') /\
     length (ProofResults R) = 3 /\
     forall i pv, [pv_valid; pv_invalid; pv_valid] !! i = Some pv ->
       constant (processProof toy_op pv) (Ok (Some false)) ->
       ProofResults R !! i = Some false).
Proof.
  destruct (ProcessNewTaskCreatedLog_false_or_abandon toy_op task_unknown_system
              world0 toy_da_tags_distinct) as [Habandon _].
  destruct (ProcessNewTaskCreatedLog_false_or_abandon toy_op task_mixed
              world0 toy_da_tags_distinct) as [_ Hfull].
  split; [exact toy_da_tags_distinct|].
  split; [exact fixtures_has_unknown_system|].
  split; [exact (Habandon fixtures_has_unknown_system)|].
  split; [exact fixtures_mixed_all_verdicts|].
  exact (Hfull fixtures_mixed_all_verdicts).
Defined.

Lemma StartLoop_abandoned_task_panics_witness :
  @da_tags_distinct toy /\
  (exists pv, pv ∈ [pv_valid; pv_unknown_system] /\
              (fetch_fails toy_op pv \/ @unknown_system toy pv)) /\
  exists w',
    StartLoop toy_op {| done := false |}
      [SigTask task_unknown_system; SigTask task_valid] world0
    = (Panic nil_deref, w') /\
    sends w' = sends world0.
Proof.
  split; [exact toy_da_tags_distinct|].
  split; [exact fixtures_has_unknown_system|].
  exact (StartLoop_abandoned_task_panics toy_op {| done := false |}
           task_unknown_system [SigTask task_valid] world0
           toy_da_tags_distinct fixtures_has_unknown_system).
Defined.

Lemma sp1_oversized_is_false_witness :
  @proving_systems_distinct toy /\
  ProvingSystemId pv_sp1_oversized = @SP1 toy /\
  resolveProof toy_op pv_sp1_oversized world0 = (Ok (Some five_bytes), world0) /\
  (@MaxProofSize toy < length five_bytes \/
   @MaxElfBufferSize toy < length (PubInput pv_sp1_oversized)) /\
  0 < length [true] /\
  exists w',
    verifyProof toy_op pv_sp1_oversized five_bytes world0 = (Ok (Some false), w') /\
    verifyLoop toy_op 0 [pv_sp1_oversized; pv_valid] [true] world0
    = verifyLoop toy_op 1 [pv_valid] (<[0:=false]> [true]) w'.
Proof.
  assert (@MaxProofSize toy < length five_bytes \/
          @MaxElfBufferSize toy < length (PubInput pv_sp1_oversized)) as Hbig.
  { left. vm_compute. lia. }
  assert (0 < length [true]) as Hi by (simpl; lia).
  split; [exact toy_proving_systems_distinct|].
  split; [reflexivity|]. split; [reflexivity|].
  split; [exact Hbig|]. split; [exact Hi|].
  exact (sp1_oversized_is_false toy_op pv_sp1_oversized five_bytes 0 [pv_valid]
           [true] world0 world0 toy_proving_systems_distinct eq_refl eq_refl
           Hbig Hi).
Defined.

Lemma StartLoop_sign_error_panics_witness :
  ProcessNewTaskCreatedLog toy_op_abi_fails task_valid (received_index world0)
  = (Ok (Some response_valid),
     after (ProcessNewTaskCreatedLog toy_op_abi_fails task_valid
              (received_index world0))) /\
  @AbiEncodeTaskResponse toy_abi_fails response_valid = inr "abi: cannot pack"%string /\
  StartLoop toy_op_abi_fails {| done := false |}
    [SigTask task_valid; SigTask task_mixed] world0
  = (Panic nil_deref,
     {| logs := logs (after (ProcessNewTaskCreatedLog toy_op_abi_fails task_valid
                               (received_index world0)))
                ++ [(Error, "Could not sign task response"%string)];
        calls := calls (after (ProcessNewTaskCreatedLog toy_op_abi_fails task_valid
                                 (received_index world0)))
                 ++ [CallAbiEncodeTaskResponse response_valid] |}).
Proof.
  assert (ProcessNewTaskCreatedLog toy_op_abi_fails task_valid (received_index world0)
          = (Ok (Some response_valid),
             after (ProcessNewTaskCreatedLog toy_op_abi_fails task_valid
                      (received_index world0)))) as Hp
    by (vm_compute; reflexivity).
  split; [exact Hp|]. split; [reflexivity|].
  exact (StartLoop_sign_error_panics toy_op_abi_fails {| done := false |}
           task_valid [SigTask task_mixed] world0 response_valid _
           "abi: cannot pack"%string Hp eq_refl).
Defined.

Lemma resolveProof_Calldata_verbatim_witness :
  Solution (DAPayload_of pv_invalid) = @Calldata toy /\
  resolveProof toy_op pv_invalid world0
  = (Ok (Some [Byte.x01; Byte.x01]), world0) /\
  processProof toy_op pv_invalid world0
  = verifyProof toy_op pv_invalid [Byte.x01; Byte.x01] world0.
Proof.
  split; [reflexivity|].
  exact (resolveProof_Calldata_verbatim toy_op pv_invalid world0 eq_refl).
Defined.

Lemma verifyPlonkProof_spec_witness :
  @proof_ReadFrom toy BN254 [Byte.x01] = inl [Byte.x01] /\
  @witness_New toy BN254 = inl [] /\
  @witness_ReadFrom toy [] [Byte.x02] = inl [Byte.x02] /\
  @verifyingKey_ReadFrom toy BN254 [Byte.x03] = inl [Byte.x03] /\
  calls (after (verifyPlonkProof toy_op [Byte.x01] [Byte.x02] [Byte.x03] BN254 world0))
  = calls world0 ++ take 5 (plonk_calls BN254 [Byte.x01] [Byte.x02] [Byte.x03]) /\
  exists b,
    value (verifyPlonkProof toy_op [Byte.x01] [Byte.x02] [Byte.x03] BN254 world0)
    = Ok b /\
    (b = true <-> @plonk_Verify toy [Byte.x01] [Byte.x03] [Byte.x02] = None).
Proof.
  do 4 (split; [reflexivity|]).
  destruct (verifyPlonkProof_spec toy_op [Byte.x01] [Byte.x02] [Byte.x03] BN254
              world0) as [_ H].
  destruct (H [Byte.x01] eq_refl) as [_ H1].
  destruct (H1 [] eq_refl) as [_ H2].
  destruct (H2 [Byte.x02] eq_refl) as [_ H3].
  exact (H3 [Byte.x03] eq_refl).
Defined.

Lemma SignTaskResponse_deterministic_witness :
  @AbiEncodeTaskResponse toy response_mixed = inl (toy_abi response_mixed) /\
  value (SignTaskResponse toy_op (Some response_mixed) world0)
  = value (SignTaskResponse toy_op (Some response_mixed)
             (after (log Info "earlier" world0))) /\
  length (@Keccak256 toy (toy_abi response_mixed)) = 32 /\
  forall w, SignTaskResponse toy_op (Some response_mixed) w
            = (Ok (inl (@SignMessage toy (BlsKeyPair toy_op)
                          (@Keccak256 toy (toy_abi response_mixed)))),
               {| logs := logs w;
                  calls := calls w ++
                    [CallAbiEncodeTaskResponse response_mixed;
                     CallSignMessage (@Keccak256 toy (toy_abi response_mixed))] |}).
Proof.
  split; [reflexivity|].
  destruct (SignTaskResponse_deterministic toy_op response_mixed world0
              (after (log Info "earlier" world0))) as [Hsame Hdigest].
  split; [exact Hsame|].
  exact (Hdigest (toy_abi response_mixed) eq_refl).
Defined.

Lemma fixtures_unknown_solution : @unknown_solution toy pv_unknown_solution.
Proof. by repeat split. Defined.

(** The run of [Start] after a cancellation: the task that arrives next is
    verified, signed and handed to the aggregator, nothing is unsubscribed,
    and the loop waits for more. *)
Example Start_cancelled_takes_next_task :
  let r := Start toy_op {| done := false |} [SigCancel; SigTask task_valid] world0 in
  value r = Ok Blocked /\
  length (sends (after r)) = 1 /\
  CallUnsubscribe ∉ calls (after r).
Proof.
  vm_compute. split; [reflexivity|]. split; [reflexivity|].
  intros H. apply list_elem_of_In in H. simpl in H.
  repeat (destruct H as [H|H]; [discriminate|]). exact H.
Qed.

End AtFixtures.

(** * Further properties of the operator *)

Section FurtherProperties.

Context {ext : Externals}.

Implicit Types (o : Operator) (pv : ProofVerificationData) (w : World).

(** ** Computations only append to the world *)

Lemma extend_nil w : extend w [] [] = w.
Proof. destruct w. unfold extend. simpl. by rewrite !app_nil_r. Qed.

Lemma extend_extend w dl1 dc1 dl2 dc2 :
  extend (extend w dl1 dc1) dl2 dc2 = extend w (dl1 ++ dl2) (dc1 ++ dc2).
Proof. unfold extend. simpl. by rewrite !app_assoc. Qed.

Lemma sends_extend w dl dc :
  sends (extend w dl dc) = sends w ++ sends (extend world0 [] dc).
Proof. unfold sends, extend. simpl. apply omap_app. Qed.

Lemma effect_mret {A} P (a : A) : effect P (mret a).
Proof.
  exists (Ok a), [], []. split; [constructor|].
  intros w. by rewrite extend_nil.
Qed.

Lemma effect_panic {A} P msg : effect P (@panic A msg).
Proof.
  exists (Panic msg), [], []. split; [constructor|].
  intros w. by rewrite extend_nil.
Qed.

Lemma effect_log P lvl msg : effect P (log lvl msg).
Proof.
  exists (Ok tt), [(lvl, msg)], []. split; [constructor|].
  intros w. unfold log, extend. by rewrite app_nil_r.
Qed.

Lemma effect_call (P : Call -> Prop) c : P c -> effect P (call c).
Proof.
  intros Hc. exists (Ok tt), [], [c]. split; [by repeat constructor|].
  intros w. unfold call, extend. by rewrite app_nil_r.
Qed.

Lemma effect_bind {A B} P (m : M A) (k : A -> M B) :
  effect P m -> (forall a, effect P (k a)) -> effect P (m ≫= k).
Proof.
  intros (r & dl & dc & HP & Hm) Hk. destruct r as [a|msg].
  - destruct (Hk a) as (r' & dl' & dc' & HP' & Hk').
    exists r', (dl ++ dl'), (dc ++ dc'). split; [by apply Forall_app|].
    intros w. rewrite (run_bind_ok _ _ _ _ _ (Hm w)), Hk'.
    by rewrite extend_extend.
  - exists (Panic msg), dl, dc. split; [done|].
    intros w. by rewrite run_bind, Hm.
Qed.

Lemma effect_weaken {A} (P Q : Call -> Prop) (m : M A) :
  (forall c, P c -> Q c) -> effect P m -> effect Q m.
Proof.
  intros HPQ (r & dl & dc & HP & Hm). exists r, dl, dc.
  split; [|done]. eapply Forall_impl; eauto.
Qed.

Ltac solve_effect :=
  repeat first
    [ apply effect_mret
    | apply effect_panic
    | apply effect_log
    | apply effect_call; by split
    | apply effect_bind; [|intros ?]
    | case_match ].

Lemma effect_verifyPlonkProof o p i k c : effect internal (verifyPlonkProof o p i k c).
Proof. unfold verifyPlonkProof. solve_effect. Qed.

Lemma effect_processProof o pv : effect internal (processProof o pv).
Proof.
  unfold processProof, resolveProof, verifyProof, getProofFromEigenDA,
    getProofFromCelestia, verifyPlonkProofBLS12_381, verifyPlonkProofBN254,
    VerifySp1Proof, to_array.
  cbv zeta.
  repeat first
    [ apply effect_verifyPlonkProof
    | apply effect_mret
    | apply effect_panic
    | apply effect_log
    | apply effect_call; by split
    | apply effect_bind; [|intros ?]
    | case_match ].
Qed.

Lemma effect_verifyLoop o rest :
  forall i (results : list bool), effect internal (verifyLoop o i rest results).
Proof.
  induction rest as [|pv rest IH]; intros i results; simpl.
  - apply effect_mret.
  - apply effect_bind; [apply effect_processProof|]. intros [b|].
    + apply effect_bind; [unfold store; solve_effect|]. intros results'. apply IH.
    + apply effect_mret.
Qed.

Lemma effect_ProcessNewTaskCreatedLog o T :
  effect internal (ProcessNewTaskCreatedLog o T).
Proof.
  unfold ProcessNewTaskCreatedLog. cbv zeta.
  apply effect_bind; [apply effect_log|]. intros _.
  apply effect_bind; [apply effect_verifyLoop|].
  intros [results|]; apply effect_mret.
Qed.

Lemma effect_SignTaskResponse o r : effect internal (SignTaskResponse o r).
Proof. unfold SignTaskResponse, deref, slice_to. solve_effect. Qed.

Lemma effect_handleNewTask o T :
  effect (fun c => is_subscription c = false) (handleNewTask o T).
Proof.
  unfold handleNewTask. cbv zeta.
  apply effect_bind; [apply effect_log|]. intros _.
  apply effect_bind.
  { eapply effect_weaken; [|apply effect_ProcessNewTaskCreatedLog].
    by intros c [_ Hc]. }
  intros taskResponse. apply effect_bind.
  { eapply effect_weaken; [|apply effect_SignTaskResponse].
    by intros c [_ Hc]. }
  intros r. unfold deref. solve_effect; apply effect_call; reflexivity.
Qed.

(** ** A task that is verified and signed *)

Lemma SignTaskResponse_signs o (R : TaskResponse) encoded w :
  AbiEncodeTaskResponse R = inl encoded ->
  SignTaskResponse o (Some R) w
  = (Ok (inl (SignMessage (BlsKeyPair o) (Keccak256 encoded))),
     extend w [] [CallAbiEncodeTaskResponse R; CallSignMessage (Keccak256 encoded)]).
Proof.
  intros He. unfold SignTaskResponse.
  erewrite run_bind_ok; [|reflexivity].
  erewrite run_bind_ok; [|reflexivity].
  rewrite He.
  erewrite run_bind_ok; [|apply slice_to_Keccak256].
  rewrite digest_Keccak256. unfold extend.
  cbv [mbind M_bind bind mret M_ret ret call log]. simpl.
  by rewrite <- app_assoc, app_nil_r.
Qed.

Lemma handleNewTask_submits o T w (R : TaskResponse) w1 encoded :
  ProcessNewTaskCreatedLog o T (received_index w) = (Ok (Some R), w1) ->
  AbiEncodeTaskResponse R = inl encoded ->
  handleNewTask o T w
  = (Ok tt,
     extend w1 [(Info, "Signed hash: %+v"%string)]
       [CallAbiEncodeTaskResponse R; CallSignMessage (Keccak256 encoded);
        GoSendSignedTaskResponseToAggregator (signed_response o R encoded)]).
Proof.
  intros Hp He. unfold handleNewTask.
  erewrite run_bind_ok; [|reflexivity].
  erewrite run_bind_ok; [|exact Hp].
  erewrite run_bind_ok; [|by apply SignTaskResponse_signs].
  unfold extend, signed_response.
  cbv [mbind M_bind bind mret M_ret ret call log deref]. simpl.
  by rewrite !app_nil_r, <- !app_assoc.
Qed.

(** X1. A task whose proofs all yield a verdict and whose response encodes
    is followed by exactly one submission: the response that
    [ProcessNewTaskCreatedLog] returned, the signature of the Keccak-256
    digest of its encoding under the operator's key pair, and the
    operator's id. The loop then goes on with the next signal. *)
Theorem StartLoop_submits_signed_response o ctx T signals w
    (R : TaskResponse) w1 encoded :
  ProcessNewTaskCreatedLog o T (received_index w) = (Ok (Some R), w1) ->
  AbiEncodeTaskResponse R = inl encoded ->
  let w2 := extend w1 [(Info, "Signed hash: %+v"%string)]
              [CallAbiEncodeTaskResponse R; CallSignMessage (Keccak256 encoded);
               GoSendSignedTaskResponseToAggregator (signed_response o R encoded)] in
  StartLoop o ctx (SigTask T :: signals) w = StartLoop o ctx signals w2 /\
  sends w2 = sends w ++ [signed_response o R encoded].
Proof.
  intros Hp He w2. split.
  - rewrite StartLoop_task.
    by rewrite (run_bind_ok _ _ _ _ _ (handleNewTask_submits _ _ _ _ _ _ Hp He)).
  - unfold w2. rewrite sends_extend. f_equal.
    pose proof (quiet_ProcessNewTaskCreatedLog o T (received_index w)) as Hq.
    by rewrite Hp in Hq.
Qed.

Lemma StartLoop_subscription_error o ctx err signals w :
  StartLoop o ctx (SigSubErr err :: signals) w
  = StartLoop o ctx signals
      (extend w [(Info, "Error in websocket subscription"%string)]
         [CallUnsubscribe; CallSubscribe]).
Proof.
  change (StartLoop o ctx (SigSubErr err :: signals))
    with (log Info "Error in websocket subscription";;
          call CallUnsubscribe;; SubscribeToNewTasks o;;
          StartLoop o ctx signals).
  unfold SubscribeToNewTasks.
  erewrite run_bind_ok; [|reflexivity].
  erewrite run_bind_ok; [|reflexivity].
  erewrite run_bind_ok; [|reflexivity].
  f_equal. unfold extend. simpl. by rewrite <- app_assoc.
Qed.

(** What one task adds to the submissions: one when it is handled without
    a panic, none when it panics. *)
Lemma handleNewTask_sends o T w :
  exists l, sends (after (handleNewTask o T w)) = sends w ++ l /\
    ((value (handleNewTask o T w) = Ok tt /\ length l = 1) \/
     ((exists msg, value (handleNewTask o T w) = Panic msg) /\ l = [])).
Proof.
  destruct (ProcessNewTaskCreatedLog_returns o T (received_index w))
    as ([R|] & w1 & Hp).
  - pose proof (quiet_ProcessNewTaskCreatedLog o T (received_index w)) as Hq.
    rewrite Hp in Hq. simpl in Hq. change (sends (received_index w)) with (sends w) in Hq.
    destruct (AbiEncodeTaskResponse R) as [encoded|e] eqn:He.
    + rewrite (handleNewTask_submits _ _ _ _ _ _ Hp He).
      exists [signed_response o R encoded]. split.
      * unfold after. simpl. by rewrite sends_extend, Hq.
      * left. by split.
    + rewrite (handleNewTask_sign_error _ _ _ _ _ _ Hp He).
      exists []. split.
      * unfold after, sends. simpl. rewrite omap_app. simpl.
        unfold sends in Hq. by rewrite Hq.
      * right. split; [by eexists|done].
  - pose proof (quiet_ProcessNewTaskCreatedLog o T (received_index w)) as Hq.
    rewrite Hp in Hq. simpl in Hq. change (sends (received_index w)) with (sends w) in Hq.
    rewrite (handleNewTask_nil _ _ _ _ Hp).
    exists []. split; [by rewrite app_nil_r|].
    right. split; [by eexists|done].
Qed.

Lemma tasks_in_task T signals : tasks_in (SigTask T :: signals) = S (tasks_in signals).
Proof. reflexivity. Qed.

Lemma tasks_in_other s signals :
  is_task s = false -> tasks_in (s :: signals) = tasks_in signals.
Proof. intros H. unfold tasks_in. by destruct s. Qed.

(** X2. The loop of [Start] never hands the aggregator more than one
    submission per task received, and never takes one back: the
    submissions after a run are those before it followed by at most as
    many as there were tasks, and by exactly as many when the run did not
    panic. *)
Theorem StartLoop_one_submission_per_task o signals :
  forall ctx w,
    exists l, sends (after (StartLoop o ctx signals w)) = sends w ++ l /\
      length l <= tasks_in signals /\
      (value (StartLoop o ctx signals w) = Ok Blocked ->
       length l = tasks_in signals).
Proof.
  induction signals as [|[|err|T] signals IH]; intros ctx w.
  - exists []. simpl. by rewrite app_nil_r.
  - destruct (IH {| done := true |} w) as (l & Hl & Hle & Heq).
    exists l. by rewrite tasks_in_other.
  - set (w1 := extend w [(Info, "Error in websocket subscription"%string)]
                 [CallUnsubscribe; CallSubscribe]).
    rewrite StartLoop_subscription_error. fold w1.
    destruct (IH ctx w1) as (l & Hl & Hle & Heq).
    exists l. rewrite tasks_in_other by done.
    split; [|done]. rewrite Hl. unfold w1. rewrite sends_extend. simpl.
    by rewrite app_nil_r.
  - rewrite StartLoop_task, run_bind, tasks_in_task.
    destruct (handleNewTask_sends o T w) as (l1 & Hl1 & Hcase).
    destruct (handleNewTask o T w) as [[[]|msg] w1]; simpl in *.
    + destruct Hcase as [[_ Hlen]|[[msg Hmsg] _]]; [|discriminate].
      destruct (IH ctx w1) as (l & Hl & Hle & Heq).
      exists (l1 ++ l). rewrite Hl, Hl1, length_app, Hlen, app_assoc.
      split; [done|]. split; [lia|]. intros Hv. rewrite Heq by done. lia.
    + destruct Hcase as [[Hv _]|[_ ->]]; [discriminate|].
      exists []. split; [done|]. split; [simpl; lia|]. discriminate.
Qed.

(** ** The subscription *)

Lemma subscription_after_app live cs1 cs2 :
  subscription_after live (cs1 ++ cs2)
  = subscription_after live cs1 ≫= fun live' => subscription_after live' cs2.
Proof.
  revert live. induction cs1 as [|c cs1 IH]; intros live; [done|].
  destruct c, live; simpl; auto.
Qed.

Lemma subscription_after_other live cs :
  Forall (fun c => is_subscription c = false) cs ->
  subscription_after live cs = Some live.
Proof.
  induction 1 as [|c cs Hc _ IH]; [done|].
  destruct c; simpl in *; try discriminate; exact IH.
Qed.

Lemma StartLoop_subscription o signals :
  forall ctx w,
    exists dl dc, after (StartLoop o ctx signals w) = extend w dl dc /\
                  subscription_after true dc = Some true.
Proof.
  induction signals as [|[|err|T] signals IH]; intros ctx w.
  - exists [], []. simpl. by rewrite extend_nil.
  - apply IH.
  - set (w1 := extend w [(Info, "Error in websocket subscription"%string)]
                 [CallUnsubscribe; CallSubscribe]).
    rewrite StartLoop_subscription_error. fold w1.
    destruct (IH ctx w1) as (dl & dc & Hw & Hs).
    exists ([(Info, "Error in websocket subscription"%string)] ++ dl),
           ([CallUnsubscribe; CallSubscribe] ++ dc).
    split; [by rewrite Hw; unfold w1; rewrite extend_extend|exact Hs].
  - rewrite StartLoop_task, run_bind.
    destruct (effect_handleNewTask o T) as (r & dl1 & dc1 & Hdc1 & Hrun).
    rewrite Hrun. destruct r as [[]|msg].
    + destruct (IH ctx (extend w dl1 dc1)) as (dl & dc & Hw & Hs).
      exists (dl1 ++ dl), (dc1 ++ dc). split.
      * by rewrite Hw, extend_extend.
      * rewrite subscription_after_app, (subscription_after_other _ _ Hdc1).
        exact Hs.
    + exists dl1, dc1. split; [done|]. by apply subscription_after_other.
Qed.

(** X3. [Start] keeps exactly one subscription: over any signals and
    whether or not the run panics, the calls it makes open a subscription
    first, release one only while one is live and open one only while none
    is, and leave one live at the end. *)
Theorem Start_one_live_subscription o ctx signals w :
  exists dl dc, after (Start o ctx signals w) = extend w dl dc /\
                subscription_after false dc = Some true.
Proof.
  unfold Start, SubscribeToNewTasks. rewrite run_bind. simpl.
  destruct (StartLoop_subscription o signals ctx
              {| logs := logs w; calls := calls w ++ [CallSubscribe] |})
    as (dl & dc & Hw & Hs).
  exists dl, (CallSubscribe :: dc). split; [|exact Hs].
  rewrite Hw. unfold extend. simpl. by rewrite <- app_assoc.
Qed.

(** ** Runs compose *)

Lemma effect_StartLoop o signals :
  forall ctx, effect (fun _ => True) (StartLoop o ctx signals).
Proof.
  induction signals as [|[|err|T] signals IH]; intros ctx.
  - apply effect_mret.
  - apply IH.
  - destruct (IH ctx) as (r & dl & dc & HP & Hrun).
    exists r, ([(Info, "Error in websocket subscription"%string)] ++ dl),
           ([CallUnsubscribe; CallSubscribe] ++ dc).
    split; [by apply Forall_true|].
    intros w. by rewrite StartLoop_subscription_error, Hrun, extend_extend.
  - change (StartLoop o ctx (SigTask T :: signals))
      with (handleNewTask o T ≫= fun _ => StartLoop o ctx signals).
    apply effect_bind; [|intros _; apply IH].
    eapply effect_weaken; [|apply effect_handleNewTask]. done.
Qed.

(** X4. A run over signals [s1] followed by [s2] is the run over [s1]
    and then, from the world it reached, the run over [s2]; when the run
    over [s1] panics, that is the end: nothing of [s2] is handled and the
    world is the one at the panic. *)
Theorem StartLoop_app o s1 s2 :
  forall ctx w,
    StartLoop o ctx (s1 ++ s2) w =
    match StartLoop o ctx s1 w with
    | (Ok _, w1) => StartLoop o ctx s2 w1
    | (Panic msg, w1) => (Panic msg, w1)
    end.
Proof.
  induction s1 as [|[|err|T] s1 IH]; intros ctx w.
  - reflexivity.
  - change (StartLoop o ctx ((SigCancel :: s1) ++ s2) w)
      with (StartLoop o {| done := true |} (s1 ++ s2) w).
    change (StartLoop o ctx (SigCancel :: s1) w)
      with (StartLoop o {| done := true |} s1 w).
    rewrite IH. destruct (StartLoop o _ s1 w) as [[e|msg] w1]; [|done].
    apply StartLoop_ctx.
  - change ((SigSubErr err :: s1) ++ s2) with (SigSubErr err :: (s1 ++ s2)).
    rewrite !StartLoop_subscription_error. apply IH.
  - change ((SigTask T :: s1) ++ s2) with (SigTask T :: (s1 ++ s2)).
    rewrite !StartLoop_task, !run_bind.
    destruct (handleNewTask o T w) as [[[]|msg] w1]; [apply IH|done].
Qed.

(** X5. An error of the subscription does not change what is done with
    the tasks: with the error or without it, the run ends the same way and
    hands the same submissions to the aggregator, the tasks after the
    error included. *)
Theorem StartLoop_subscription_error_transparent o ctx s1 err s2 w :
  value (StartLoop o ctx (s1 ++ SigSubErr err :: s2) w)
  = value (StartLoop o ctx (s1 ++ s2) w) /\
  sends (after (StartLoop o ctx (s1 ++ SigSubErr err :: s2) w))
  = sends (after (StartLoop o ctx (s1 ++ s2) w)).
Proof.
  rewrite !StartLoop_app.
  destruct (StartLoop o ctx s1 w) as [[e|msg] w1]; [|done].
  rewrite StartLoop_subscription_error.
  destruct (effect_StartLoop o s2 ctx) as (r & dl & dc & _ & Hrun).
  rewrite !Hrun. unfold value, after. simpl. split; [done|].
  rewrite !(sends_extend _ dl dc). f_equal.
  rewrite sends_extend. simpl. by rewrite app_nil_r.
Qed.

(** ** Giving up a task *)

Lemma verifyLoop_stops_at_abandoned o bad post pre :
  constant (processProof o bad) (Ok None) ->
  forall i (res1 res2 : list bool) w,
    i + length pre < length res1 ->
    i + length pre < length res2 ->
    exists w', verifyLoop o i (pre ++ bad :: post) res1 w = (Ok None, w') /\
               verifyLoop o i (pre ++ [bad]) res2 w = (Ok None, w').
Proof.
  intros Hbad. induction pre as [|pv pre IH]; intros i res1 res2 w H1 H2.
  - destruct (constant_ok_run _ _ w Hbad) as [w' Hw'].
    exists w'. cbn [app]. by rewrite !(verifyLoop_cons_none _ _ _ _ _ _ _ Hw').
  - destruct (processProof_constant o pv) as [v Hv].
    destruct (constant_ok_run _ _ w Hv) as [w1 Hw1].
    simpl in H1, H2. cbn [app]. destruct v as [b|].
    + rewrite !(verifyLoop_cons_some _ _ _ _ _ _ _ _ Hw1) by lia.
      apply IH; rewrite length_insert; lia.
    + exists w1. by rewrite !(verifyLoop_cons_none _ _ _ _ _ _ _ Hw1).
Qed.

(** X6. Once a proof is given up on, the proofs after it are neither
    fetched nor verified: the task with them and the task cut off after
    the proof given up on both return nil, having made the same calls, and
    the loop over their proofs ends in the same world, log lines of the
    loop included. *)
Theorem ProcessNewTaskCreatedLog_stops_at_abandoned o (T1 T2 : NewTaskCreated)
    pre bad post w :
  da_tags_distinct ->
  fetch_fails o bad \/ unknown_system bad ->
  ProofVerificationsData (BatchProofVerificationTask_of T1) = pre ++ bad :: post ->
  ProofVerificationsData (BatchProofVerificationTask_of T2) = pre ++ [bad] ->
  value (ProcessNewTaskCreatedLog o T1 w) = Ok None /\
  value (ProcessNewTaskCreatedLog o T2 w) = Ok None /\
  calls (after (ProcessNewTaskCreatedLog o T1 w))
  = calls (after (ProcessNewTaskCreatedLog o T2 w)) /\
  forall w0,
    verifyLoop o 0 (pre ++ bad :: post)
      (replicate (length (pre ++ bad :: post)) false) w0
    = verifyLoop o 0 (pre ++ [bad]) (replicate (length (pre ++ [bad])) false) w0.
Proof.
  intros HD Hbad H1 H2.
  assert (forall w0, exists w',
            verifyLoop o 0 (pre ++ bad :: post)
              (replicate (length (pre ++ bad :: post)) false) w0 = (Ok None, w') /\
            verifyLoop o 0 (pre ++ [bad])
              (replicate (length (pre ++ [bad])) false) w0 = (Ok None, w'))
    as Hloop.
  { intros w0.
    apply (verifyLoop_stops_at_abandoned o bad post pre
             (processProof_abandons o bad HD Hbad));
      rewrite length_replicate, length_app; simpl; lia. }
  rewrite !ProcessNewTaskCreatedLog_run. simpl. rewrite H1, H2.
  destruct (Hloop (received_task w)) as (w' & -> & ->).
  repeat split. intros w0. by destruct (Hloop w0) as (w1 & -> & ->).
Qed.

(** X7. A task without proofs is not given up on: its response has the
    task's index and an empty result vector, nothing is fetched or
    verified for it, and when the response encodes it is signed and
    submitted like any other. *)
Theorem empty_task_is_answered o T w :
  ProofVerificationsData (BatchProofVerificationTask_of T) = [] ->
  let R := {| RespTaskIndex := TaskIndex T; ProofResults := [] |} in
  ProcessNewTaskCreatedLog o T w = (Ok (Some R), received_task w) /\
  forall encoded, AbiEncodeTaskResponse R = inl encoded ->
    value (handleNewTask o T w) = Ok tt /\
    sends (after (handleNewTask o T w)) = sends w ++ [signed_response o R encoded].
Proof.
  intros Hempty R.
  assert (forall w0, ProcessNewTaskCreatedLog o T w0 = (Ok (Some R), received_task w0))
    as Hp.
  { intros w0. rewrite ProcessNewTaskCreatedLog_run. simpl. by rewrite Hempty. }
  split; [apply Hp|]. intros encoded He.
  rewrite (handleNewTask_submits _ _ _ _ _ _ (Hp (received_index w)) He).
  split; [done|]. unfold after. simpl. by rewrite sends_extend.
Qed.

(** ** The verifiers and what they are given *)

Ltac zeqb :=
  repeat match goal with
         | H : ?a = ?b |- context [(?a =? ?b)%Z] =>
             rewrite (proj2 (Z.eqb_eq a b) H)
         | H : ?a <> ?b |- context [(?a =? ?b)%Z] =>
             rewrite (proj2 (Z.eqb_neq a b) H)
         end.

Lemma copy_make_bytes n (src : bytes) : copy (make_bytes n) src = padded n src.
Proof.
  unfold copy, padded, make_bytes. rewrite length_replicate.
  f_equal. apply drop_replicate.
Qed.





Lemma verifyPlonkProof_true_iff o p i k c :
  constant (verifyPlonkProof o p i k c) (Ok true) <-> plonk_accepts c p i k.
Proof.
  unfold plonk_accepts, verifyPlonkProof. split.
  - intros Hc. specialize (Hc world0). revert Hc.
    destruct (proof_ReadFrom c p) as [proof|] eqn:H1; [|discriminate].
    destruct (witness_New c) as [pubInput0|] eqn:H2; [|discriminate].
    destruct (witness_ReadFrom pubInput0 i) as [pubInput|] eqn:H3; [|discriminate].
    destruct (verifyingKey_ReadFrom c k) as [verificationKey|] eqn:H4;
      [|discriminate].
    destruct (plonk_Verify proof verificationKey pubInput) eqn:Hv; [discriminate|].
    intros _. by exists proof, pubInput0, pubInput, verificationKey.
  - intros (proof & pubInput0 & pubInput & verificationKey
            & -> & -> & -> & -> & Hv) w0.
    by rewrite Hv.
Qed.

Lemma verifyPlonkProof_some_true_iff o p i k c (msg : string) :
  constant (verificationResult ← verifyPlonkProof o p i k c;
            log Info msg;; mret (Some verificationResult)) (Ok (Some true))
  <-> plonk_accepts c p i k.
Proof.
  rewrite <- verifyPlonkProof_true_iff.
  destruct (verifyPlonkProof_constant o p i k c) as [b Hb]. split.
  - intros Hc. specialize (Hc world0).
    destruct (constant_ok_run _ _ world0 Hb) as [w1 Hw1].
    unfold value in Hc. rewrite (run_bind_ok _ _ _ _ _ Hw1) in Hc.
    simpl in Hc. by simplify_eq.
  - intros Ht. eapply constant_bind; [exact Ht|]. by intros w0.
Qed.

(** X9. A proof marked as PLONK over BLS12-381, or over BN254, has the
    verdict [true] exactly when the bytes resolved for it, its public
    input and its verification key all deserialize on that curve and
    [plonk.Verify] accepts the proof for that key and that witness. *)
Theorem processProof_plonk_accepts o pv proof :
  constant (resolveProof o pv) (Ok (Some proof)) ->
  (ProvingSystemId pv = GnarkPlonkBls12_381 ->
   constant (processProof o pv) (Ok (Some true)) <->
   plonk_accepts BLS12_381 proof (PubInput pv) (VerificationKey pv)) /\
  (ProvingSystemId pv = GnarkPlonkBn254 ->
   GnarkPlonkBn254 <> GnarkPlonkBls12_381 ->
   constant (processProof o pv) (Ok (Some true)) <->
   plonk_accepts BN254 proof (PubInput pv) (VerificationKey pv)).
Proof.
  intros Hr.
  assert (forall r, constant (processProof o pv) r <-> constant (verifyProof o pv proof) r)
    as Hpv.
  { intros r. split; intros Hc w0.
    - destruct (constant_ok_run _ _ w0 Hr) as [w1 Hw1].
      destruct (verifyProof_constant o pv proof) as [v Hv].
      rewrite (Hv w0), <- (Hv w1), <- (Hc w0).
      unfold processProof, value. by rewrite (run_bind_ok _ _ _ _ _ Hw1).
    - revert w0. unfold processProof. eapply constant_bind; [exact Hr|exact Hc]. }
  split.
  - intros Hid. rewrite Hpv, <- verifyPlonkProof_some_true_iff.
    unfold verifyProof, verifyPlonkProofBLS12_381. zeqb. reflexivity.
  - intros Hid Hne. rewrite Hpv, <- verifyPlonkProof_some_true_iff.
    assert (ProvingSystemId pv <> GnarkPlonkBls12_381) by congruence.
    unfold verifyProof, verifyPlonkProofBN254. zeqb. reflexivity.
Qed.

(** ** A solution tag that is none of the three *)

Lemma call_then_effect {A} (P : Call -> Prop) c (k : unit -> M A) :
  effect P (k tt) ->
  exists r dl dc, Forall P dc /\ writes (call c ≫= k) r dl (c :: dc).
Proof.
  intros (r & dl & dc & HP & Hk). exists r, dl, dc. split; [done|].
  intros w. erewrite run_bind_ok; [|reflexivity]. rewrite Hk.
  unfold extend. simpl. by rewrite <- app_assoc.
Qed.

(** [verifyPlonkProof] returns, and the first thing it does is to read the
    proof from the bytes it was given; it queries no backend. *)
Lemma verifyPlonkProof_first_call o p i k c :
  exists b dl cs,
    Forall (fun c' => is_fetch c' = false) cs /\
    writes (verifyPlonkProof o p i k c) (Ok b) dl (CallProofReadFrom c p :: cs).
Proof.
  destruct (verifyPlonkProof_constant o p i k c) as [b Hb].
  revert Hb. unfold verifyPlonkProof. intros Hb.
  match goal with
  | |- context [mbind ?k0 (call ?c0)] =>
      destruct (call_then_effect (fun c' => is_fetch c' = false) c0 k0)
        as (r & dl & cs & HP & Hrun)
  end.
  { solve_effect; apply effect_call; reflexivity. }
  exists b, dl, cs. split; [done|].
  specialize (Hb world0). unfold value in Hb. rewrite Hrun in Hb.
  simpl in Hb. by subst r.
Qed.

Lemma verifyProof_BLS12_381 o pv proof w :
  ProvingSystemId pv = GnarkPlonkBls12_381 ->
  verifyProof o pv proof w
  = (verificationResult ←
       verifyPlonkProof o proof (PubInput pv) (VerificationKey pv) BLS12_381;
     log Info "PLONK BLS12_381 proof verification result: %t";;
     mret (Some verificationResult)) w.
Proof. intros Hid. unfold verifyProof, verifyPlonkProofBLS12_381. zeqb. reflexivity. Qed.

Lemma verifyProof_BN254 o pv proof w :
  ProvingSystemId pv <> GnarkPlonkBls12_381 ->
  ProvingSystemId pv = GnarkPlonkBn254 ->
  verifyProof o pv proof w
  = (verificationResult ←
       verifyPlonkProof o proof (PubInput pv) (VerificationKey pv) BN254;
     log Info "PLONK BN254 proof verification result: %t";;
     mret (Some verificationResult)) w.
Proof. intros Hne Hid. unfold verifyProof, verifyPlonkProofBN254. zeqb. reflexivity. Qed.

Lemma verifyProof_SP1 o pv proof w :
  ProvingSystemId pv <> GnarkPlonkBls12_381 ->
  ProvingSystemId pv <> GnarkPlonkBn254 ->
  ProvingSystemId pv = SP1 ->
  verifyProof o pv proof w
  = (verificationResult ←
       VerifySp1Proof (padded MaxProofSize proof) (length proof)
         (padded MaxElfBufferSize (PubInput pv)) (length (PubInput pv));
     log Info "SP1 proof verification result: %t";;
     mret (Some verificationResult)) w.
Proof.
  intros H1 H2 Hid. unfold verifyProof. zeqb.
  rewrite run_bind, to_array_copy, run_bind, to_array_copy.
  by rewrite !copy_make_bytes.
Qed.

Lemma VerifySp1Proof_call proofBuffer proofLen elfBuffer elfLen w :
  exists b w1,
    VerifySp1Proof proofBuffer proofLen elfBuffer elfLen w = (Ok b, w1) /\
    calls w1 = calls w ++ [CallVerifySp1Proof proofLen elfLen].
Proof.
  unfold VerifySp1Proof. erewrite run_bind_ok; [|reflexivity].
  case_match; eexists _, _; (split; [reflexivity|done]).
Qed.

(** The iteration of a proof whose bytes are [proof]: the verifier run on
    them gives a verdict, the iteration gives that verdict and has made
    the verifier's calls and no other, and the loop stores the verdict at
    the index of the proof and goes on. *)
Lemma verifier_verdict_recorded o pv w (verifier : M bool) (msg : string) b w1 :
  (forall w0, processProof o pv w0
              = (verificationResult ← verifier;
                 log Info msg;; mret (Some verificationResult)) w0) ->
  verifier w = (Ok b, w1) ->
  exists w',
    processProof o pv w = (Ok (Some b), w') /\
    calls w' = calls w1 /\
    forall i rest (results : list bool), i < length results ->
      verifyLoop o i (pv :: rest) results w
      = verifyLoop o (S i) rest (<[i:=b]> results) w'.
Proof.
  intros Hp Hv.
  assert (processProof o pv w
          = (Ok (Some b),
             {| logs := logs w1 ++ [(Info, msg)]; calls := calls w1 |})) as Hrun.
  { rewrite Hp. by rewrite (run_bind_ok _ _ _ _ _ Hv). }
  eexists. split; [exact Hrun|]. split; [done|].
  intros i rest results Hi. by apply verifyLoop_cons_some.
Qed.

(** C10. For a payload whose solution tag is none of [Calldata],
    [EigenDA], [Celestia], no case of the first switch runs: the world is
    unchanged (nothing is fetched, nothing is logged) and [proof] stays
    nil. The task is not given up on for it: the verifier that
    [ProvingSystemId] selects is run on the nil proof bytes, that is
    [verifyPlonkProof] on BLS12-381 or on BN254, whose first call reads
    the proof from no bytes, or [VerifySp1Proof] with a proof length of 0;
    the iteration makes the calls of that verifier and no other, none of
    them to a backend; and the verdict of that verifier is what the loop
    stores at the index of the proof before it goes on. *)
Theorem unknown_solution_verifies_nil o pv w :
  unknown_solution pv ->
  proving_systems_distinct ->
  let recorded (verifier : M bool) (first : Call) :=
    exists b w1 w',
      verifier w = (Ok b, w1) /\
      (exists cs, calls w1 = calls w ++ first :: cs /\
                  Forall (fun c => is_fetch c = false) cs) /\
      processProof o pv w = (Ok (Some b), w') /\
      calls w' = calls w1 /\
      forall i rest (results : list bool), i < length results ->
        verifyLoop o i (pv :: rest) results w
        = verifyLoop o (S i) rest (<[i:=b]> results) w' in
  resolveProof o pv w = (Ok (Some []), w) /\
  (ProvingSystemId pv = GnarkPlonkBls12_381 ->
   recorded (verifyPlonkProof o [] (PubInput pv) (VerificationKey pv) BLS12_381)
            (CallProofReadFrom BLS12_381 [])) /\
  (ProvingSystemId pv = GnarkPlonkBn254 ->
   recorded (verifyPlonkProof o [] (PubInput pv) (VerificationKey pv) BN254)
            (CallProofReadFrom BN254 [])) /\
  (ProvingSystemId pv = SP1 ->
   recorded (VerifySp1Proof (padded MaxProofSize []) 0
               (padded MaxElfBufferSize (PubInput pv)) (length (PubInput pv)))
            (CallVerifySp1Proof 0 (length (PubInput pv)))).
Proof.
  intros Hsol (D1 & D2 & D3) recorded.
  assert (forall w0, resolveProof o pv w0 = (Ok (Some []), w0)) as Hr
    by (intros w0; by apply resolveProof_unknown_solution).
  assert (forall w0, processProof o pv w0 = verifyProof o pv [] w0) as Hp.
  { intros w0. unfold processProof. by rewrite (run_bind_ok _ _ _ _ _ (Hr w0)). }
  split; [apply Hr|]. split; [|split].
  - intros Hid.
    destruct (verifyPlonkProof_first_call o [] (PubInput pv) (VerificationKey pv)
                BLS12_381) as (b & dl & cs & Hcs & Hrun).
    destruct (verifier_verdict_recorded o pv w _ _ b _
                (fun w0 => eq_trans (Hp w0) (verifyProof_BLS12_381 o pv [] w0 Hid))
                (Hrun w)) as (w' & Hproc & Hcalls & Hloop).
    exists b, (extend w dl (CallProofReadFrom BLS12_381 [] :: cs)), w'.
    split; [apply Hrun|]. split; [by exists cs|]. by repeat split.
  - intros Hid.
    assert (ProvingSystemId pv <> GnarkPlonkBls12_381) as Hne by congruence.
    destruct (verifyPlonkProof_first_call o [] (PubInput pv) (VerificationKey pv)
                BN254) as (b & dl & cs & Hcs & Hrun).
    destruct (verifier_verdict_recorded o pv w _ _ b _
                (fun w0 => eq_trans (Hp w0) (verifyProof_BN254 o pv [] w0 Hne Hid))
                (Hrun w)) as (w' & Hproc & Hcalls & Hloop).
    exists b, (extend w dl (CallProofReadFrom BN254 [] :: cs)), w'.
    split; [apply Hrun|]. split; [by exists cs|]. by repeat split.
  - intros Hid.
    assert (ProvingSystemId pv <> GnarkPlonkBls12_381) as Hne1 by congruence.
    assert (ProvingSystemId pv <> GnarkPlonkBn254) as Hne2 by congruence.
    destruct (VerifySp1Proof_call (padded MaxProofSize []) 0
                (padded MaxElfBufferSize (PubInput pv)) (length (PubInput pv)) w)
      as (b & w1 & Hrun & Hc).
    destruct (verifier_verdict_recorded o pv w _ _ b w1
                (fun w0 => eq_trans (Hp w0)
                             (verifyProof_SP1 o pv [] w0 Hne1 Hne2 Hid))
                Hrun) as (w' & Hproc & Hcalls & Hloop).
    exists b, w1, w'.
    split; [exact Hrun|]. split; [by exists []|]. by repeat split.
Qed.

End FurtherProperties.

(** * Properties of [NewOperatorFromConfig] *)

Section StartupProperties.

Context {ext : Externals} {chain : Chain}.

Implicit Types (o : Operator) (w : World).

(** What a submission of the operator [o] looks like. *)
Lemma handleNewTask_sends_signed o T w :
  exists l, sends (after (handleNewTask o T w)) = sends w ++ l /\
    Forall (fun s => SignedOperatorId s = OperatorId o /\
              exists encoded,
                AbiEncodeTaskResponse (TaskResponse_of s) = inl encoded /\
                BlsSignature s = SignMessage (BlsKeyPair o) (Keccak256 encoded)) l.
Proof.
  destruct (ProcessNewTaskCreatedLog_returns o T (received_index w))
    as ([R|] & w1 & Hp);
    pose proof (quiet_ProcessNewTaskCreatedLog o T (received_index w)) as Hq;
    rewrite Hp in Hq; simpl in Hq;
    change (sends (received_index w)) with (sends w) in Hq.
  - destruct (AbiEncodeTaskResponse R) as [encoded|e] eqn:He.
    + rewrite (handleNewTask_submits _ _ _ _ _ _ Hp He).
      exists [signed_response o R encoded]. split.
      * unfold after. simpl. by rewrite sends_extend, Hq.
      * repeat constructor. by exists encoded.
    + rewrite (handleNewTask_sign_error _ _ _ _ _ _ Hp He).
      exists []. split; [|constructor].
      unfold after, sends. simpl. rewrite omap_app. simpl.
      unfold sends in Hq. by rewrite Hq.
  - rewrite (handleNewTask_nil _ _ _ _ Hp).
    exists []. split; [by rewrite app_nil_r|constructor].
Qed.

Lemma StartLoop_sends_signed o signals :
  forall ctx w,
    exists l, sends (after (StartLoop o ctx signals w)) = sends w ++ l /\
      Forall (fun s => SignedOperatorId s = OperatorId o /\
                exists encoded,
                  AbiEncodeTaskResponse (TaskResponse_of s) = inl encoded /\
                  BlsSignature s = SignMessage (BlsKeyPair o) (Keccak256 encoded)) l.
Proof.
  induction signals as [|[|err|T] signals IH]; intros ctx w.
  - exists []. simpl. by rewrite app_nil_r.
  - apply IH.
  - rewrite StartLoop_subscription_error.
    destruct (IH ctx (extend w [(Info, "Error in websocket subscription"%string)]
                        [CallUnsubscribe; CallSubscribe])) as (l & Hl & HP).
    exists l. split; [|done]. rewrite Hl, sends_extend. simpl.
    by rewrite app_nil_r.
  - rewrite StartLoop_task, run_bind.
    destruct (handleNewTask_sends_signed o T w) as (l1 & Hl1 & HP1).
    destruct (handleNewTask o T w) as [[[]|msg] w1]; simpl in *.
    + destruct (IH ctx w1) as (l & Hl & HP).
      exists (l1 ++ l). rewrite Hl, Hl1, app_assoc.
      split; [done|]. by apply Forall_app.
    + by exists l1.
Qed.

Ltac startup_crush :=
  unfold not; intros;
  repeat match goal with
         | H : _ /\ _ |- _ => destruct H
         | H : exists _, _ |- _ => destruct H
         | H : _ -> False |- _ => exfalso; apply H; clear H
         end;
  simplify_eq; try congruence; eauto 10.

(** X10. [NewOperatorFromConfig] returns an operator exactly when the AVS
    reader is created, the operator is found registered, the subscriber is
    created and the RPC client of the aggregator is created; the operator
    then has the namespace and the key pair of the configuration and the
    operator id derived from that key pair. It returns an error, rather
    than exiting, exactly when all of this holds but for the RPC client,
    and the error wraps the cause. In all other cases the process exits. *)
Theorem NewOperatorFromConfig_outcomes (configuration : OperatorConfig) :
  let checked :=
    exists avsReader,
      NewAvsReaderFromConfig configuration = inl avsReader /\
      IsOperatorRegistered avsReader (cfg_Address configuration) = inl true in
  let rpc := NewAggregatorRpcClient
               (cfg_AggregatorServerIpPortAddress configuration) in
  (forall o address avsSubscriber rpcClient,
     NewOperatorFromConfig configuration
     = Created o address avsSubscriber rpcClient <->
     checked /\
     NewAvsSubscriberFromConfig configuration = inl avsSubscriber /\
     rpc = inl rpcClient /\
     address = cfg_Address configuration /\
     o = {| Namespace := cfg_Namespace configuration;
            BlsKeyPair := cfg_KeyPair configuration;
            OperatorId := OperatorIdFromKeyPair (cfg_KeyPair configuration) |}) /\
  (forall err,
     NewOperatorFromConfig configuration = StartupError err <->
     checked /\
     (exists avsSubscriber,
        NewAvsSubscriberFromConfig configuration = inl avsSubscriber) /\
     exists cause,
       rpc = inr cause /\
       err = String.append "Could not create RPC client: "
               (String.append cause ". Is aggregator running?")) /\
  ((exists msg, NewOperatorFromConfig configuration = Fatal msg) <->
   ~ (checked /\
      exists avsSubscriber,
        NewAvsSubscriberFromConfig configuration = inl avsSubscriber)).
Proof.
  unfold NewOperatorFromConfig. cbv zeta.
  destruct (NewAvsReaderFromConfig configuration) as [avsReader|e1] eqn:H1;
    [destruct (IsOperatorRegistered avsReader (cfg_Address configuration))
       as [[|]|e2] eqn:H2; cbn [negb];
     [destruct (NewAvsSubscriberFromConfig configuration)
        as [avsSubscriber|e3] eqn:H3;
      [destruct (NewAggregatorRpcClient _) as [rpcClient|cause] eqn:H4|]|..]|];
    (split; [|split]);
    [intros o address sub rpc; split | intros err; split | split ..];
    try (intros; by eexists); startup_crush.
Qed.

(** X11. Every submission made by an operator that [NewOperatorFromConfig]
    returned is signed with the BLS key pair of the configuration, over
    the Keccak-256 digest of the encoding of the response it carries, and
    carries the operator id derived from that same key pair. *)
Theorem created_operator_signs_with_its_key (configuration : OperatorConfig)
    o address avsSubscriber rpcClient ctx signals w :
  NewOperatorFromConfig configuration = Created o address avsSubscriber rpcClient ->
  exists l, sends (after (Start o ctx signals w)) = sends w ++ l /\
            Forall (signed_by (cfg_KeyPair configuration)) l.
Proof.
  intros Hnew.
  assert (OperatorId o = OperatorIdFromKeyPair (cfg_KeyPair configuration) /\
          BlsKeyPair o = cfg_KeyPair configuration) as [Hid Hkey].
  { revert Hnew. unfold NewOperatorFromConfig.
    repeat case_match; intros ?; simplify_eq. by simpl. }
  unfold Start, SubscribeToNewTasks. rewrite run_bind. simpl.
  destruct (StartLoop_sends_signed o signals ctx
              {| logs := logs w; calls := calls w ++ [CallSubscribe] |})
    as (l & Hl & HP).
  exists l. split.
  - rewrite Hl. unfold sends. simpl. rewrite omap_app. simpl.
    by rewrite app_nil_r.
  - eapply Forall_impl; [exact HP|]. intros s (Hs & encoded & He & Hsig).
    split; [congruence|]. exists encoded. split; [done|]. congruence.
Qed.

End StartupProperties.

(** * Properties of the proof generator *)

Module GenerateProofProperties.

Import GenerateProof.

(** ** File names *)

Lemma list_ascii_append (a b : string) :
  list_ascii_of_string (String.append a b)
  = list_ascii_of_string a ++ list_ascii_of_string b.
Proof. induction a as [|c a IH]; simpl; [done|]. by rewrite IH. Qed.

Lemma list_ascii_inj (a b : string) :
  list_ascii_of_string a = list_ascii_of_string b -> a = b.
Proof.
  intros H. rewrite <- (string_of_list_ascii_of_string a),
              <- (string_of_list_ascii_of_string b).
  by rewrite H.
Qed.

Lemma append_cancel_l (p a b : string) :
  String.append p a = String.append p b -> a = b.
Proof.
  intros H. apply list_ascii_inj. apply (f_equal list_ascii_of_string) in H.
  rewrite !list_ascii_append in H. by apply app_inv_head in H.
Qed.

Lemma append_cancel_r (a b s : string) :
  String.append a s = String.append b s -> a = b.
Proof.
  intros H. apply list_ascii_inj. apply (f_equal list_ascii_of_string) in H.
  rewrite !list_ascii_append in H. by apply app_inv_tail in H.
Qed.

Lemma to_int_not_nil (x : Z) :
  Z.to_int x <> Decimal.Pos Decimal.Nil /\ Z.to_int x <> Decimal.Neg Decimal.Nil.
Proof.
  destruct x as [|p|p]; simpl; split; try discriminate;
    intros [= H]; by apply Unsigned.to_uint_nonnil in H.
Qed.

(** [strconv.Itoa] can be read back. *)
Lemma Itoa_inj (x y : Z) : Itoa x = Itoa y -> x = y.
Proof.
  unfold Itoa. intros H.
  apply (f_equal NilZero.int_of_string) in H.
  destruct (to_int_not_nil x) as [Hx1 Hx2].
  destruct (to_int_not_nil y) as [Hy1 Hy2].
  rewrite !NilZero.isi in H by done.
  injection H as H. apply (f_equal Z.of_int) in H.
  by rewrite !DecimalZ.of_to in H.
Qed.

Lemma name_inj (suffix : string) (x y : Z) :
  String.append outputDir
    (String.append "ineq_" (String.append (Itoa x) suffix))
  = String.append outputDir
      (String.append "ineq_" (String.append (Itoa y) suffix)) ->
  x = y.
Proof.
  intros H. apply append_cancel_l, append_cancel_l, append_cancel_r in H.
  by apply Itoa_inj.
Qed.

Lemma name_last (suffix : string) (c : Ascii.ascii) (x : Z) :
  last (list_ascii_of_string suffix) = Some c ->
  last (list_ascii_of_string
          (String.append outputDir
             (String.append "ineq_" (String.append (Itoa x) suffix))))
  = Some c.
Proof.
  intros H. rewrite !list_ascii_append, !last_app. by rewrite H.
Qed.

(** X12. The names of the files identify what they hold: the proof, the
    key and the public witness of one [x] go to three different files, and
    no file of one [x] is a file of another, so that a run overwrites only
    the files of an earlier run for the same [x]. *)
Theorem file_names_distinct (x y : Z) :
  (proofName x = proofName y -> x = y) /\
  (vkName x = vkName y -> x = y) /\
  (witnessName x = witnessName y -> x = y) /\
  proofName x <> vkName y /\
  proofName x <> witnessName y /\
  vkName x <> witnessName y.
Proof.
  unfold proofName, vkName, witnessName.
  split; [apply name_inj|]. split; [apply name_inj|]. split; [apply name_inj|].
  repeat split; intros H;
    apply (f_equal (fun s => last (list_ascii_of_string s))) in H;
    cbv beta in H;
    erewrite !name_last in H by reflexivity; discriminate.
Qed.

(** ** Runs only append to the environment *)

Lemma gextend_nil e : gextend e [] [] = e.
Proof. destruct e. unfold gextend. simpl. by rewrite !app_nil_r. Qed.

Lemma gextend_gextend e l1 o1 l2 o2 :
  gextend (gextend e l1 o1) l2 o2 = gextend e (l1 ++ l2) (o1 ++ o2).
Proof. unfold gextend. simpl. by rewrite !app_assoc. Qed.

Lemma framed_mret {A} (a : A) : framed (mret a).
Proof. exists (Done a), [], []. intros e. by rewrite gextend_nil. Qed.

Lemma framed_gpanic {A} msg : framed (@gpanic A msg).
Proof. exists (Panicked msg), [], []. intros e. by rewrite gextend_nil. Qed.

Lemma framed_fatal {A} msg : framed (@fatal A msg).
Proof. exists (Exited msg), [], []. intros e. by rewrite gextend_nil. Qed.

Lemma framed_Println line : framed (Println line).
Proof.
  exists (Done tt), [line], []. intros e. unfold Println, gextend.
  by rewrite app_nil_r.
Qed.

Lemma framed_fsop op : framed (fsop op).
Proof.
  exists (Done tt), [], [op]. intros e. unfold fsop, gextend.
  by rewrite app_nil_r.
Qed.

Lemma framed_bind {A B} (m : G A) (k : A -> G B) :
  framed m -> (forall a, framed (k a)) -> framed (m ≫= k).
Proof.
  intros (r & lines & ops & Hm) Hk. destruct r as [a|msg|msg].
  - destruct (Hk a) as (r' & lines' & ops' & Hk').
    exists r', (lines ++ lines'), (ops ++ ops'). intros e.
    change ((m ≫= k) e) with (gbind m k e). unfold gbind.
    by rewrite Hm, Hk', gextend_gextend.
  - exists (Panicked msg), lines, ops. intros e.
    change ((m ≫= k) e) with (gbind m k e). unfold gbind. by rewrite Hm.
  - exists (Exited msg), lines, ops. intros e.
    change ((m ≫= k) e) with (gbind m k e). unfold gbind. by rewrite Hm.
Qed.

Lemma framed_defer {A} op (rest : G A) : framed rest -> framed (defer (fsop op) rest).
Proof.
  intros (r & lines & ops & Hm). destruct r as [a|msg|msg].
  - exists (Done a), lines, (ops ++ [op]). intros e. unfold defer.
    rewrite Hm. unfold fsop, gextend. simpl. by rewrite app_assoc.
  - exists (Panicked msg), lines, (ops ++ [op]). intros e. unfold defer.
    rewrite Hm. unfold fsop, gextend. simpl. by rewrite app_assoc.
  - exists (Exited msg), lines, ops. intros e. unfold defer. by rewrite Hm.
Qed.

Ltac solve_framed :=
  repeat first
    [ apply framed_mret
    | apply framed_gpanic
    | apply framed_fatal
    | apply framed_Println
    | apply framed_fsop
    | apply framed_defer
    | apply framed_bind; [|intros ?]
    | case_match ].

Section Runs.

Context {gnark : Gnark}.

Lemma framed_writeFiles x proof vk publicWitness :
  framed (writeFiles x proof vk publicWitness).
Proof. unfold writeFiles, Create, WriteTo. solve_framed. Qed.

Lemma framed_GenerateIneqProof x : framed (GenerateIneqProof x).
Proof.
  unfold GenerateIneqProof.
  repeat first
    [ apply framed_writeFiles
    | apply framed_mret
    | apply framed_gpanic
    | apply framed_fatal
    | apply framed_Println
    | apply framed_bind; [|intros ?]
    | case_match ].
Qed.

(** The run from any environment is the run from the empty one, appended. *)
Lemma framed_run {A} (m : G A) e :
  framed m ->
  m e = (fst (m env0), gextend e (stdout (snd (m env0))) (fs (snd (m env0)))).
Proof. intros (r & lines & ops & Hm). by rewrite !Hm. Qed.

Ltac grun :=
  cbv [mbind G_bind gbind mret G_ret gret gpanic fatal Println fsop defer
       Create WriteTo fst snd];
  cbn [fs stdout env0 app].

Ltac leaf :=
  repeat match goal with
         | |- _ /\ _ => split
         | |- _ <-> _ => split
         | |- _ <> _ => intros ?
         | |- ~ _ => intros ?
         | |- forall _, _ => intros ?
         end;
  repeat match goal with
         | H : _ /\ _ |- _ => destruct H
         | H : _ ∈ _ |- _ => apply list_elem_of_In in H; cbn [In] in H
         | H : _ \/ _ |- _ => destruct H
         | H : False |- _ => destruct H
         end;
  simplify_eq;
  try (by eexists); try (by repeat constructor);
  try (by left); try (by right; left); try (by right; right);
  try (exfalso; match goal with H : ~ _ |- _ => apply H; by repeat split end).

(** The file part of a run, by the results of the six file operations. *)
Lemma writeFiles_run x proof vk publicWitness :
  let r := fst (writeFiles x proof vk publicWitness env0) in
  let ops := fs (snd (writeFiles x proof vk publicWitness env0)) in
  (forall name content, FsWrite name content ∈ ops ->
     (name = proofName x /\ content = proof_WriteTo proof) \/
     (name = vkName x /\ content = vk_WriteTo vk) \/
     (name = witnessName x /\ content = witness_WriteTo publicWitness)) /\
  (creates_succeed x ->
   ops = [FsCreate (proofName x); FsCreate (vkName x); FsCreate (witnessName x)]
         ++ filter (fun op => is_write op = true) ops
         ++ [FsClose (witnessName x); FsClose (vkName x); FsClose (proofName x)]) /\
  (~ creates_succeed x ->
   (exists msg, r = Panicked msg) /\ Forall (fun op => is_create op = true) ops) /\
  (r = Done tt <-> creates_succeed x /\ writes_succeed x proof vk publicWitness) /\
  (r = Done tt ->
   ops = [FsCreate (proofName x); FsCreate (vkName x); FsCreate (witnessName x);
          FsWrite (proofName x) (proof_WriteTo proof);
          FsWrite (vkName x) (vk_WriteTo vk);
          FsWrite (witnessName x) (witness_WriteTo publicWitness);
          FsClose (witnessName x); FsClose (vkName x); FsClose (proofName x)]) /\
  ops <> [].
Proof.
  unfold creates_succeed, writes_succeed, writeFiles. grun.
  destruct (os_Create (proofName x)) eqn:C1,
           (os_Create (vkName x)) eqn:C2,
           (os_Create (witnessName x)) eqn:C3,
           (file_Write (proofName x) (proof_WriteTo proof)) eqn:W1,
           (file_Write (vkName x) (vk_WriteTo vk)) eqn:W2,
           (file_Write (witnessName x) (witness_WriteTo publicWitness)) eqn:W3;
    grun; leaf.
Qed.

Ltac not_verified :=
  let H := fresh in
  intros ? ? ? H; unfold verified in H;
  repeat match goal with
         | H : exists _, _ |- _ => destruct H
         | H : _ /\ _ |- _ => destruct H
         end;
  simplify_eq; congruence.

(** The first part of a run: either every step up to [plonk.Verify]
    succeeds and the run goes on with the files, or the run ends there
    and nothing is asked of the file system. *)
Lemma GenerateIneqProof_cases x :
  (exists proof vk publicWitness,
     verified x proof vk publicWitness /\
     outcome x = fst (writeFiles x proof vk publicWitness env0) /\
     fs_ops x = fs (snd (writeFiles x proof vk publicWitness env0))) \/
  ((forall proof vk publicWitness, ~ verified x proof vk publicWitness) /\
   outcome x <> Done tt /\ fs_ops x = []).
Proof.
  unfold outcome, fs_ops, GenerateIneqProof. grun.
  destruct Compile as [ccs|e1] eqn:H1; grun;
    [|right; split; [not_verified|by split]].
  destruct (as_SparseR1CS ccs) as [r1cs|] eqn:H2; grun;
    [|right; split; [not_verified|by split]].
  destruct (NewSRS r1cs) as [[srs lagrange]|e3] eqn:H3; grun;
    [|right; split; [not_verified|by split]].
  destruct (Setup ccs srs lagrange) as [[pk vk]|e4] eqn:H4; grun;
    [|right; split; [not_verified|by split]].
  destruct (NewWitness x false) as [fullWitness|e5] eqn:H5; grun;
    [|right; split; [not_verified|by split]].
  destruct (NewWitness x true) as [publicWitness|e6] eqn:H6; grun;
    [|right; split; [not_verified|by split]].
  destruct (Prove ccs pk fullWitness) as [proof|e7] eqn:H7; grun;
    [|right; split; [not_verified|by split]].
  destruct (Verify proof vk publicWitness) as [e8|] eqn:H8; grun;
    [right; split; [not_verified|by split]|].
  left. exists proof, vk, publicWitness. split.
  { by exists ccs, r1cs, srs, lagrange, pk, fullWitness. }
  rewrite (framed_run _ _ (framed_writeFiles x proof vk publicWitness)).
  by split.
Qed.

(** X13. Nothing is asked of the file system before the proof has been
    checked: when a run creates or writes any file, every step up to
    [plonk.Verify] has succeeded, and what it writes is the proof that was
    verified, the key it was verified with and the public witness it was
    verified for, each to the file named after it. *)
Theorem files_only_for_verified_proof x :
  fs_ops x <> [] ->
  exists proof vk publicWitness,
    verified x proof vk publicWitness /\
    forall name content, FsWrite name content ∈ fs_ops x ->
      (name = proofName x /\ content = proof_WriteTo proof) \/
      (name = vkName x /\ content = vk_WriteTo vk) \/
      (name = witnessName x /\ content = witness_WriteTo publicWitness).
Proof.
  intros Hops.
  destruct (GenerateIneqProof_cases x)
    as [(proof & vk & publicWitness & Hv & _ & Hfs)|(_ & _ & Hnil)]; [|done].
  exists proof, vk, publicWitness. split; [done|]. rewrite Hfs.
  apply (writeFiles_run x proof vk publicWitness).
Qed.

(** X14. A run returns, rather than panicking or exiting, exactly when
    the proof is made and verified, the three files are created and the
    three writes succeed; it has then created the three files, written the
    proof, the key and the public witness to them, in that order, and
    closed them in the reverse order of their creation. *)
Theorem GenerateIneqProof_completes x :
  (outcome x = Done tt <->
   exists proof vk publicWitness,
     verified x proof vk publicWitness /\ creates_succeed x /\
     writes_succeed x proof vk publicWitness) /\
  (forall proof vk publicWitness,
     verified x proof vk publicWitness -> outcome x = Done tt ->
     fs_ops x
     = [FsCreate (proofName x); FsCreate (vkName x); FsCreate (witnessName x);
        FsWrite (proofName x) (proof_WriteTo proof);
        FsWrite (vkName x) (vk_WriteTo vk);
        FsWrite (witnessName x) (witness_WriteTo publicWitness);
        FsClose (witnessName x); FsClose (vkName x); FsClose (proofName x)]).
Proof.
  destruct (GenerateIneqProof_cases x)
    as [(proof & vk & publicWitness & Hv & Hout & Hfs)|(Hnv & Hout & Hnil)].
  - destruct (writeFiles_run x proof vk publicWitness)
      as (_ & _ & _ & Hdone & Hops & _).
    rewrite <- Hout in Hdone, Hops. rewrite <- Hfs in Hops.
    assert (forall proof' vk' publicWitness',
              verified x proof' vk' publicWitness' ->
              proof' = proof /\ vk' = vk /\ publicWitness' = publicWitness) as Huniq.
    { intros proof' vk' publicWitness' Hv'. unfold verified in *.
      repeat match goal with
             | H : exists _, _ |- _ => destruct H
             | H : _ /\ _ |- _ => destruct H
             end.
      simplify_eq.
      repeat match goal with
             | H1 : ?t = _, H2 : ?t = _ |- _ => rewrite H1 in H2; simplify_eq
             end.
      done. }
    split.
    + split.
      * intros Hd. exists proof, vk, publicWitness. split; [done|]. by apply Hdone.
      * intros (proof' & vk' & publicWitness' & Hv' & Hc & Hw).
        destruct (Huniq _ _ _ Hv') as (-> & -> & ->). by apply Hdone.
    + intros proof' vk' publicWitness' Hv' Hd.
      destruct (Huniq _ _ _ Hv') as (-> & -> & ->). by apply Hops.
  - split.
    + split; [done|]. intros (proof & vk & publicWitness & Hv & _).
      by destruct (Hnv _ _ _ Hv).
    + intros proof vk publicWitness Hv. by destruct (Hnv _ _ _ Hv).
Qed.

(** X15. Once the three files are created they are all closed, whether
    the writes succeed or one of them fails and the run panics: the
    operations are the three creations, then writes only, then the three
    closings in reverse order. When the creation of a file fails the run
    panics, and no file is closed, the files created before it included. *)
Theorem files_closed_once_all_created x proof vk publicWitness :
  verified x proof vk publicWitness ->
  (creates_succeed x ->
   fs_ops x
   = [FsCreate (proofName x); FsCreate (vkName x); FsCreate (witnessName x)]
     ++ filter (fun op => is_write op = true) (fs_ops x)
     ++ [FsClose (witnessName x); FsClose (vkName x); FsClose (proofName x)]) /\
  (~ creates_succeed x ->
   (exists msg, outcome x = Panicked msg) /\
   fs_ops x <> [] /\
   Forall (fun op => is_create op = true) (fs_ops x)).
Proof.
  intros Hv.
  destruct (GenerateIneqProof_cases x)
    as [(proof' & vk' & publicWitness' & _ & Hout & Hfs)|(Hnv & _)];
    [|by destruct (Hnv _ _ _ Hv)].
  destruct (writeFiles_run x proof' vk' publicWitness')
    as (_ & Hclosed & Hleft & _ & _ & Hne).
  rewrite <- Hout in Hleft. rewrite <- Hfs in Hclosed, Hleft, Hne.
  split; [exact Hclosed|]. intros Hc. destruct (Hleft Hc) as [Hp Hall].
  by repeat split.
Qed.

End Runs.

End GenerateProofProperties.

(** * The further theorems at the fixtures *)

Section FurtherAtFixtures.

Import Fixtures MoreFixtures.

Lemma unknown_solution_verifies_nil_witness :
  @unknown_solution toy pv_unknown_solution /\
  @proving_systems_distinct toy /\
  ProvingSystemId pv_unknown_solution = @GnarkPlonkBn254 toy /\
  resolveProof toy_op pv_unknown_solution world0 = (Ok (Some []), world0) /\
  exists b w1 w',
    verifyPlonkProof toy_op [] (PubInput pv_unknown_solution)
      (VerificationKey pv_unknown_solution) BN254 world0 = (Ok b, w1) /\
    (exists cs, calls w1 = calls world0 ++ CallProofReadFrom BN254 [] :: cs /\
                Forall (fun c => is_fetch c = false) cs) /\
    processProof toy_op pv_unknown_solution world0 = (Ok (Some b), w') /\
    calls w' = calls w1 /\
    forall i rest (results : list bool), i < length results ->
      verifyLoop toy_op i (pv_unknown_solution :: rest) results world0
      = verifyLoop toy_op (S i) rest (<[i:=b]> results) w'.
Proof.
  destruct (unknown_solution_verifies_nil toy_op pv_unknown_solution world0
              fixtures_unknown_solution toy_proving_systems_distinct)
    as (Hr & _ & Hbn & _).
  split; [exact fixtures_unknown_solution|].
  split; [exact toy_proving_systems_distinct|].
  split; [reflexivity|]. split; [exact Hr|].
  exact (Hbn eq_refl).
Defined.

Lemma StartLoop_submits_signed_response_witness :
  ProcessNewTaskCreatedLog toy_op task_valid (received_index world0)
  = (Ok (Some response_valid), world_valid) /\
  @AbiEncodeTaskResponse toy response_valid = inl (toy_abi response_valid) /\
  StartLoop toy_op {| done := false |} [SigTask task_valid; SigTask task_mixed] world0
  = StartLoop toy_op {| done := false |} [SigTask task_mixed]
      (extend world_valid [(Info, "Signed hash: %+v"%string)]
         [CallAbiEncodeTaskResponse response_valid;
          CallSignMessage (@Keccak256 toy (toy_abi response_valid));
          GoSendSignedTaskResponseToAggregator
            (signed_response toy_op response_valid (toy_abi response_valid))]) /\
  sends (extend world_valid [(Info, "Signed hash: %+v"%string)]
           [CallAbiEncodeTaskResponse response_valid;
            CallSignMessage (@Keccak256 toy (toy_abi response_valid));
            GoSendSignedTaskResponseToAggregator
              (signed_response toy_op response_valid (toy_abi response_valid))])
  = sends world0 ++ [signed_response toy_op response_valid (toy_abi response_valid)].
Proof.
  assert (ProcessNewTaskCreatedLog toy_op task_valid (received_index world0)
          = (Ok (Some response_valid), world_valid)) as Hp
    by (vm_compute; reflexivity).
  split; [exact Hp|]. split; [reflexivity|].
  exact (StartLoop_submits_signed_response toy_op {| done := false |} task_valid
           [SigTask task_mixed] world0 response_valid world_valid
           (toy_abi response_valid) Hp eq_refl).
Defined.

Lemma StartLoop_one_submission_per_task_witness :
  value (StartLoop toy_op {| done := false |} signals_two_tasks world0) = Ok Blocked /\
  exists l,
    sends (after (StartLoop toy_op {| done := false |} signals_two_tasks world0))
    = sends world0 ++ l /\
    length l <= tasks_in signals_two_tasks /\
    (value (StartLoop toy_op {| done := false |} signals_two_tasks world0) = Ok Blocked ->
     length l = tasks_in signals_two_tasks).
Proof.
  split; [vm_compute; reflexivity|].
  exact (StartLoop_one_submission_per_task toy_op signals_two_tasks
           {| done := false |} world0).
Defined.

Lemma fixtures_fetch_fails : fetch_fails toy_op pv_fetch_fails \/ @unknown_system toy pv_fetch_fails.
Proof. left. left. split; [reflexivity|]. by eexists. Defined.

Lemma ProcessNewTaskCreatedLog_stops_at_abandoned_witness :
  @da_tags_distinct toy /\
  (fetch_fails toy_op pv_fetch_fails \/ @unknown_system toy pv_fetch_fails) /\
  ProofVerificationsData (BatchProofVerificationTask_of task_fetch_fails_first)
  = [pv_valid] ++ pv_fetch_fails :: [pv_valid; pv_invalid] /\
  ProofVerificationsData (BatchProofVerificationTask_of task_fetch_fails_last)
  = [pv_valid] ++ [pv_fetch_fails] /\
  value (ProcessNewTaskCreatedLog toy_op task_fetch_fails_first world0) = Ok None /\
  value (ProcessNewTaskCreatedLog toy_op task_fetch_fails_last world0) = Ok None /\
  calls (after (ProcessNewTaskCreatedLog toy_op task_fetch_fails_first world0))
  = calls (after (ProcessNewTaskCreatedLog toy_op task_fetch_fails_last world0)) /\
  forall w0,
    verifyLoop toy_op 0 ([pv_valid] ++ pv_fetch_fails :: [pv_valid; pv_invalid])
      (replicate (length ([pv_valid] ++ pv_fetch_fails :: [pv_valid; pv_invalid]))
         false) w0
    = verifyLoop toy_op 0 ([pv_valid] ++ [pv_fetch_fails])
        (replicate (length ([pv_valid] ++ [pv_fetch_fails])) false) w0.
Proof.
  split; [exact toy_da_tags_distinct|]. split; [exact fixtures_fetch_fails|].
  split; [reflexivity|]. split; [reflexivity|].
  exact (ProcessNewTaskCreatedLog_stops_at_abandoned toy_op
           task_fetch_fails_first task_fetch_fails_last
           [pv_valid] pv_fetch_fails [pv_valid; pv_invalid] world0
           toy_da_tags_distinct fixtures_fetch_fails eq_refl eq_refl).
Defined.

Lemma empty_task_is_answered_witness :
  ProofVerificationsData (BatchProofVerificationTask_of task_empty) = [] /\
  @AbiEncodeTaskResponse toy response_empty = inl [] /\
  ProcessNewTaskCreatedLog toy_op task_empty world0
  = (Ok (Some response_empty), received_task world0) /\
  value (handleNewTask toy_op task_empty world0) = Ok tt /\
  sends (after (handleNewTask toy_op task_empty world0))
  = sends world0 ++ [signed_response toy_op response_empty []].
Proof.
  destruct (empty_task_is_answered toy_op task_empty world0 eq_refl) as [Hp Hs].
  split; [reflexivity|]. split; [reflexivity|]. split; [exact Hp|].
  exact (Hs [] eq_refl).
Defined.


Lemma fixtures_resolves_valid :
  constant (resolveProof toy_op pv_valid) (Ok (Some [Byte.x01])).
Proof. intros w. reflexivity. Defined.

Lemma fixtures_bn254_is_not_bls : @GnarkPlonkBn254 toy <> @GnarkPlonkBls12_381 toy.
Proof. discriminate. Defined.

Lemma processProof_plonk_accepts_witness :
  constant (resolveProof toy_op pv_valid) (Ok (Some [Byte.x01])) /\
  ProvingSystemId pv_valid = @GnarkPlonkBn254 toy /\
  @GnarkPlonkBn254 toy <> @GnarkPlonkBls12_381 toy /\
  (constant (processProof toy_op pv_valid) (Ok (Some true)) <->
   @plonk_accepts toy BN254 [Byte.x01] (PubInput pv_valid) (VerificationKey pv_valid)).
Proof.
  destruct (processProof_plonk_accepts toy_op pv_valid [Byte.x01]
              fixtures_resolves_valid) as [_ Hbn].
  split; [exact fixtures_resolves_valid|]. split; [reflexivity|].
  split; [exact fixtures_bn254_is_not_bls|].
  exact (Hbn eq_refl fixtures_bn254_is_not_bls).
Defined.

Lemma fixtures_created :
  @NewOperatorFromConfig toy toy_chain toy_config = @Created toy toy_chain created_op [Byte.xaa] tt tt.
Proof. reflexivity. Defined.

Lemma NewOperatorFromConfig_outcomes_witness :
  @NewOperatorFromConfig toy toy_chain toy_config
  = @Created toy toy_chain created_op [Byte.xaa] tt tt /\
  ((exists avsReader,
      @NewAvsReaderFromConfig toy toy_chain toy_config = inl avsReader /\
      @IsOperatorRegistered toy toy_chain avsReader (cfg_Address toy_config)
      = inl true) /\
   @NewAvsSubscriberFromConfig toy toy_chain toy_config = inl tt /\
   @NewAggregatorRpcClient toy toy_chain
     (cfg_AggregatorServerIpPortAddress toy_config) = inl tt /\
   [Byte.xaa] = cfg_Address toy_config /\
   created_op
   = {| Namespace := cfg_Namespace toy_config;
        BlsKeyPair := cfg_KeyPair toy_config;
        OperatorId := @OperatorIdFromKeyPair toy toy_chain (cfg_KeyPair toy_config) |}) /\
  @NewOperatorFromConfig toy toy_chain toy_config_no_aggregator
  = @StartupError toy toy_chain
      "Could not create RPC client: connection refused. Is aggregator running?".
Proof.
  destruct (@NewOperatorFromConfig_outcomes toy toy_chain toy_config)
    as (Hcreated & _ & _).
  destruct (@NewOperatorFromConfig_outcomes toy toy_chain toy_config_no_aggregator)
    as (_ & Herror & _).
  split; [exact fixtures_created|].
  split; [exact (proj1 (Hcreated created_op [Byte.xaa] tt tt) fixtures_created)|].
  apply Herror. split; [by exists tt|]. split; [by exists tt|].
  by exists "connection refused"%string.
Defined.

Lemma created_operator_signs_with_its_key_witness :
  @NewOperatorFromConfig toy toy_chain toy_config
  = @Created toy toy_chain created_op [Byte.xaa] tt tt /\
  exists l,
    sends (after (Start created_op {| done := false |} signals_two_tasks world0))
    = sends world0 ++ l /\
    Forall (@signed_by toy toy_chain (cfg_KeyPair toy_config)) l.
Proof.
  split; [exact fixtures_created|].
  exact (@created_operator_signs_with_its_key toy toy_chain toy_config created_op
           [Byte.xaa] tt tt {| done := false |} signals_two_tasks world0
           fixtures_created).
Defined.

End FurtherAtFixtures.

Section GeneratorAtFixtures.

Import MoreFixtures GenerateProof.

Lemma file_names_distinct_witness :
  proofName 3 = proofName 3 /\
  vkName 3 = vkName 3 /\
  witnessName 3 = witnessName 3 /\
  3%Z = 3%Z /\
  proofName 3 <> vkName 12 /\
  proofName 3 <> witnessName 12 /\
  vkName 3 <> witnessName 12.
Proof.
  destruct (GenerateProofProperties.file_names_distinct 3 3)
    as (Hp & _ & _ & _).
  destruct (GenerateProofProperties.file_names_distinct 3 12)
    as (_ & _ & _ & Hpv & Hpw & Hvw).
  split; [reflexivity|]. split; [reflexivity|]. split; [reflexivity|].
  split; [exact (Hp eq_refl)|]. by repeat split.
Defined.

Lemma fixtures_verified : @verified toy_gnark 3 3%Z [Byte.x07] 3%Z.
Proof. exists tt, tt, tt, tt, tt, 3%Z. by repeat split. Defined.

Lemma fixtures_verified_no_space : @verified toy_gnark_no_space 3 3%Z [Byte.x07] 3%Z.
Proof. exists tt, tt, tt, tt, tt, 3%Z. by repeat split. Defined.

Lemma fixtures_creates_succeed : @creates_succeed toy_gnark 3.
Proof. by repeat split. Defined.

Lemma fixtures_writes_succeed : @writes_succeed toy_gnark 3 3%Z [Byte.x07] 3%Z.
Proof. by repeat split. Defined.

Lemma fixtures_creates_fail : ~ @creates_succeed toy_gnark_no_space 3.
Proof. intros (_ & H & _). vm_compute in H. discriminate. Defined.

Lemma fixtures_writes_files : @fs_ops toy_gnark 3 <> [].
Proof. vm_compute. discriminate. Defined.

Lemma files_only_for_verified_proof_witness :
  @fs_ops toy_gnark 3 <> [] /\
  exists proof vk publicWitness,
    @verified toy_gnark 3 proof vk publicWitness /\
    forall name content, FsWrite name content ∈ @fs_ops toy_gnark 3 ->
      (name = proofName 3 /\ content = @proof_WriteTo toy_gnark proof) \/
      (name = vkName 3 /\ content = @vk_WriteTo toy_gnark vk) \/
      (name = witnessName 3 /\ content = @witness_WriteTo toy_gnark publicWitness).
Proof.
  split; [exact fixtures_writes_files|].
  exact (@GenerateProofProperties.files_only_for_verified_proof toy_gnark 3
           fixtures_writes_files).
Defined.

Lemma GenerateIneqProof_completes_witness :
  (exists proof vk publicWitness,
     @verified toy_gnark 3 proof vk publicWitness /\ @creates_succeed toy_gnark 3 /\
     @writes_succeed toy_gnark 3 proof vk publicWitness) /\
  @outcome toy_gnark 3 = Done tt /\
  @fs_ops toy_gnark 3
  = [FsCreate (proofName 3); FsCreate (vkName 3); FsCreate (witnessName 3);
     FsWrite (proofName 3) [Byte.x01];
     FsWrite (vkName 3) [Byte.x07];
     FsWrite (witnessName 3) [Byte.x03];
     FsClose (witnessName 3); FsClose (vkName 3); FsClose (proofName 3)].
Proof.
  destruct (@GenerateProofProperties.GenerateIneqProof_completes toy_gnark 3)
    as [Hiff Hops].
  assert (exists proof vk publicWitness,
            @verified toy_gnark 3 proof vk publicWitness /\
            @creates_succeed toy_gnark 3 /\
            @writes_succeed toy_gnark 3 proof vk publicWitness) as Hall.
  { exists 3%Z, [Byte.x07], 3%Z.
    split; [exact fixtures_verified|].
    split; [exact fixtures_creates_succeed | exact fixtures_writes_succeed]. }
  split; [exact Hall|]. split; [exact (proj2 Hiff Hall)|].
  exact (Hops 3%Z [Byte.x07] 3%Z fixtures_verified (proj2 Hiff Hall)).
Defined.

Lemma files_closed_once_all_created_witness :
  @verified toy_gnark 3 3%Z [Byte.x07] 3%Z /\
  @creates_succeed toy_gnark 3 /\
  @fs_ops toy_gnark 3
  = [FsCreate (proofName 3); FsCreate (vkName 3); FsCreate (witnessName 3)]
    ++ filter (fun op => is_write op = true) (@fs_ops toy_gnark 3)
    ++ [FsClose (witnessName 3); FsClose (vkName 3); FsClose (proofName 3)] /\
  @verified toy_gnark_no_space 3 3%Z [Byte.x07] 3%Z /\
  ~ @creates_succeed toy_gnark_no_space 3 /\
  (exists msg, @outcome toy_gnark_no_space 3 = Panicked msg) /\
  @fs_ops toy_gnark_no_space 3 <> [] /\
  Forall (fun op => is_create op = true) (@fs_ops toy_gnark_no_space 3).
Proof.
  destruct (@GenerateProofProperties.files_closed_once_all_created toy_gnark 3
              3%Z [Byte.x07] 3%Z fixtures_verified) as [Hclosed _].
  destruct (@GenerateProofProperties.files_closed_once_all_created
              toy_gnark_no_space 3 3%Z [Byte.x07] 3%Z fixtures_verified_no_space)
    as [_ Hleft].
  split; [exact fixtures_verified|]. split; [exact fixtures_creates_succeed|].
  split; [exact (Hclosed fixtures_creates_succeed)|].
  split; [exact fixtures_verified_no_space|].
  split; [exact fixtures_creates_fail|].
  exact (Hleft fixtures_creates_fail).
Defined.

End GeneratorAtFixtures.
